(** * Camera and GameObject of the 2D game engine (chapter 12)

    A shallow embedding of [camera.js] (class [Camera]) and of
    [game_object.js] (class [GameObject]), with the collaborators they call.

    JavaScript numbers are modelled three times.  The modules [Camera]
    and [GameObject] compute with real numbers and exact arithmetic; a
    computation that would leave the finite numbers (a division by zero,
    an operand read from a missing array slot) yields [None].  The module
    [rounded] has the methods whose result depends on how a number is
    rounded ([clampAtBoundary] fed with its own result,
    [setCurrentFrontDir]) with a rounding after every operation and every
    write to an array of gl-matrix, for any rounding; exact arithmetic is
    one of its instances.  The module [binary64] has the same methods on
    the doubles of the machine, to run them where the real numbers do not
    follow: at an overflow, at an underflow, at a tie.  JavaScript arrays
    live in a store and are passed by reference, so that aliasing between
    the camera and its callers is visible; gl-matrix vectors and matrices
    that no caller shares are values. *)

From Stdlib Require Import ZArith Reals Lra.
From Stdlib Require PrimFloat.
From stdpp Require Import base option list.

(** * Numbers *)

(** [a < b] on numbers, as a boolean. *)
Definition Rltb (x y : R) : bool := if Rlt_dec x y then true else false.

(** [a > b] on numbers. *)
Definition Rgtb (x y : R) : bool := Rltb y x.

(** [a === b] on numbers. *)
Definition Reqb (x y : R) : bool := if Req_dec_T x y then true else false.

(** [n / d]; a zero divisor leaves the finite numbers. *)
Definition js_div (n d : R) : option R :=
  if Req_dec_T d 0 then None else Some (n / d)%R.

(** * Arrays and the store *)

Abbreviation jsarray := (list R).
Abbreviation heap := (list (list R)).
Abbreviation loc := nat.

(** [a[i] = v]: overwrites inside the array, grows it by one at its end;
    a write further out would leave holes, which are not modelled. *)
Definition js_set (a : jsarray) (i : nat) (v : R) : option jsarray :=
  if decide (i < length a) then Some (<[i := v]> a)
  else if decide (i = length a) then Some (a ++ [v])
  else None.

(** [l[i]] for the array at [l]; [None] stands for [undefined]. *)
Definition load (h : heap) (l : loc) (i : nat) : option R :=
  a ← h !! l; a !! i.

(** [l[i] = v] for the array at [l]. *)
Definition store (h : heap) (l : loc) (i : nat) (v : R) : option heap :=
  a ← h !! l; a' ← js_set a i v; Some (<[l := a']> h).

(** An array literal: a new object, at an address no older reference has. *)
Definition alloc (h : heap) (a : jsarray) : loc * heap :=
  (length h, h ++ [a]).

(** * gl-matrix *)

Module vec2.
Local Open Scope R_scope.

Record t := mk { x : R; y : R }.

Definition fromValues (x y : R) : t := mk x y.

(** [out[0] = v]. *)
Definition set0 (out : t) (v : R) : t := mk v (y out).
(** [out[1] = v]. *)
Definition set1 (out : t) (v : R) : t := mk (x out) v.

(** Modelled from the spec: [vec2.sub] of the gl-matrix library, which is
    not under src/; the componentwise difference [a - b]. *)
Definition sub (a b : t) : t := mk (x a - x b) (y a - y b).

(** Modelled from the spec: [vec2.length] of the gl-matrix library, which
    is not under src/; the Euclidean length. *)
Definition length (a : t) : R := sqrt (x a * x a + y a * y a).

(** Modelled from the spec: [vec2.normalize(out, a)] of the gl-matrix
    library, which is not under src/.  The library scales [a] by
    [1 / Math.sqrt(len)] where [len] is the squared length, when that is
    positive; [out] keeps its value otherwise.  This is the function in
    exact arithmetic; [rounded.normalize] has its roundings and
    [binary64.normalize] runs it on doubles. *)
Definition normalize (out a : t) : t :=
  let len := x a * x a + y a * y a in
  if Rgtb len 0 then
    let len := 1 / sqrt len in
    mk (x a * len) (y a * len)
  else out.
End vec2.

Module vec3.
Record t := mk { x : R; y : R; z : R }.

Definition fromValues (x y z : R) : t := mk x y z.
End vec3.

Module mat4.
Local Open Scope R_scope.

(** A 4x4 matrix as gl-matrix stores it: sixteen numbers, column after
    column; [mI] is the element at index [I]. *)
Record t := mk {
  m0 : R; m1 : R; m2 : R; m3 : R;
  m4 : R; m5 : R; m6 : R; m7 : R;
  m8 : R; m9 : R; m10 : R; m11 : R;
  m12 : R; m13 : R; m14 : R; m15 : R }.

(** Modelled from the spec: [mat4.create] of the gl-matrix library, which
    is not under src/; the identity matrix. *)
Definition create : t :=
  mk 1 0 0 0
     0 1 0 0
     0 0 1 0
     0 0 0 1.

(** Modelled from the spec: [mat4.scale(out, a, v)] of the gl-matrix
    library, which is not under src/; the columns of [a] scaled by the
    components of [v]. *)
Definition scale (a : t) (v : vec3.t) : t :=
  let x := vec3.x v in let y := vec3.y v in let z := vec3.z v in
  mk (m0 a * x) (m1 a * x) (m2 a * x) (m3 a * x)
     (m4 a * y) (m5 a * y) (m6 a * y) (m7 a * y)
     (m8 a * z) (m9 a * z) (m10 a * z) (m11 a * z)
     (m12 a) (m13 a) (m14 a) (m15 a).

(** Modelled from the spec: [mat4.translate(out, a, v)] of the gl-matrix
    library, which is not under src/; only the last column changes. *)
Definition translate (a : t) (v : vec3.t) : t :=
  let x := vec3.x v in let y := vec3.y v in let z := vec3.z v in
  mk (m0 a) (m1 a) (m2 a) (m3 a)
     (m4 a) (m5 a) (m6 a) (m7 a)
     (m8 a) (m9 a) (m10 a) (m11 a)
     (m0 a * x + m4 a * y + m8 a * z + m12 a)
     (m1 a * x + m5 a * y + m9 a * z + m13 a)
     (m2 a * x + m6 a * y + m10 a * z + m14 a)
     (m3 a * x + m7 a * y + m11 a * z + m15 a).




(** The image of the point [(x, y, z, 1)] under [m], without its last
    coordinate. *)
Definition apply (m : t) (p : vec3.t) : vec3.t :=
  let x := vec3.x p in let y := vec3.y p in let z := vec3.z p in
  vec3.mk (m0 m * x + m4 m * y + m8 m * z + m12 m)
          (m1 m * x + m5 m * y + m9 m * z + m13 m)
          (m2 m * x + m6 m * y + m10 m * z + m14 m).

(** The image of a point of the 2D world: the first two coordinates of
    the image of [(x, y, 0, 1)], which is what [vec2.transformMat4] of
    gl-matrix computes. *)
Definition apply2 (m : t) (p : vec2.t) : vec2.t :=
  let x := vec2.x p in let y := vec2.y p in
  vec2.mk (m0 m * x + m4 m * y + m12 m) (m1 m * x + m5 m * y + m13 m).
End mat4.

(** * Collaborators of the camera *)

Module eBoundCollideStatus.
(** Modelled from the spec: the enumeration [eBoundCollideStatus] of
    bounding_box.js, which is not under src/; a bitmask over collide-left,
    collide-right, collide-top and collide-bottom, and a value for inside.
    This is the flag of the left edge. *)
Definition eCollideLeft : Z := 1.
(** Modelled from the spec: the flag of the right edge. *)
Definition eCollideRight : Z := 2.
(** Modelled from the spec: the flag of the top edge. *)
Definition eCollideTop : Z := 4.
(** Modelled from the spec: the flag of the bottom edge. *)
Definition eCollideBottom : Z := 8.
(** Modelled from the spec: the status of a box that violates no edge. *)
Definition eInside : Z := 16.
End eBoundCollideStatus.

Module BoundingBox.
Import eBoundCollideStatus.
Local Open Scope R_scope.

(** Modelled from the spec: the class [BoundingBox] of bounding_box.js,
    which is not under src/; an axis-aligned box built from a centre, a
    width and a height, kept as its lower left corner and its size. *)
Record t := mk { mLL : vec2.t; mWidth : R; mHeight : R }.

(** Modelled from the spec: the constructor, from the centre and the
    size. *)
Definition new (centerPos : vec2.t) (w h : R) : t :=
  mk (vec2.mk (vec2.x centerPos - w / 2) (vec2.y centerPos - h / 2)) w h.

(** Modelled from the spec: the left edge. *)
Definition minX (b : t) : R := vec2.x (mLL b).
(** Modelled from the spec: the right edge. *)
Definition maxX (b : t) : R := vec2.x (mLL b) + mWidth b.
(** Modelled from the spec: the bottom edge. *)
Definition minY (b : t) : R := vec2.y (mLL b).
(** Modelled from the spec: the top edge. *)
Definition maxY (b : t) : R := vec2.y (mLL b) + mHeight b.

(** Modelled from the spec: the intersects-bound query; the two boxes
    overlap on both axes. *)
Definition intersectsBound (this otherBound : t) : bool :=
  Rltb (minX this) (maxX otherBound) &&
  Rgtb (maxX this) (minX otherBound) &&
  Rltb (minY this) (maxY otherBound) &&
  Rgtb (maxY this) (minY otherBound).

(** Modelled from the spec: the collide-status query, the status of
    [otherBound] with respect to [this]: the flags of the edges of [this]
    that [otherBound] violates (its right edge lies beyond the right edge
    of [this], and so on), and [eInside] when it violates none. *)
Definition boundCollideStatus (this otherBound : t) : Z :=
  let status := 0%Z in
  let status :=
    if Rltb (minX otherBound) (minX this)
    then Z.lor status eCollideLeft else status in
  let status :=
    if Rgtb (maxX otherBound) (maxX this)
    then Z.lor status eCollideRight else status in
  let status :=
    if Rltb (minY otherBound) (minY this)
    then Z.lor status eCollideBottom else status in
  let status :=
    if Rgtb (maxY otherBound) (maxY this)
    then Z.lor status eCollideTop else status in
  if Z.eqb status 0 then eInside else status.
End BoundingBox.

Module Transform.
(** Modelled from the spec: the class [Transform] of transform.js, which
    is not under src/; a position (a point the camera may write to), a
    size and a rotation. *)
Record t := mk { mPosition : vec2.t; mScale : vec2.t; mRotationInRad : R }.

(** Modelled from the spec: [getPosition()], the position. *)
Definition getPosition (x : t) : vec2.t := mPosition x.
(** Modelled from the spec: [getWidth()], the first component of the size. *)
Definition getWidth (x : t) : R := vec2.x (mScale x).
(** Modelled from the spec: [getHeight()], the second component of the
    size. *)
Definition getHeight (x : t) : R := vec2.y (mScale x).
(** Modelled from the spec: [getSize()], the size. *)
Definition getSize (x : t) : vec2.t := mScale x.
(** Modelled from the spec: [getRotationInRad()], the rotation. *)
Definition getRotationInRad (x : t) : R := mRotationInRad x.

(** The transform after a write through the array that [getPosition]
    returned. *)
Definition withPosition (x : t) (pos : vec2.t) : t :=
  mk pos (mScale x) (mRotationInRad x).
End Transform.

Module CameraState.
(** Modelled from the spec: the class [CameraState] of camera_state.js,
    which is not under src/; the logical centre and the width of the
    viewing window, with their accessors. *)
Record t := mk { mCenter : vec2.t; mWidth : R }.

(** Modelled from the spec: the constructor. *)
Definition new (center : vec2.t) (width : R) : t := mk center width.
(** Modelled from the spec: [getCenter()]. *)
Definition getCenter (s : t) : vec2.t := mCenter s.
(** Modelled from the spec: [getWidth()]. *)
Definition getWidth (s : t) : R := mWidth s.
(** Modelled from the spec: [setCenter(c)]. *)
Definition setCenter (s : t) (c : vec2.t) : t := mk c (mWidth s).
(** Modelled from the spec: [setWidth(w)]. *)
Definition setWidth (s : t) (w : R) : t := mk (mCenter s) w.
End CameraState.

Module CameraShake.
(** Modelled from the spec: the shake collaborator, which is not under
    src/; the camera only asks it for the shaken centre of this frame. *)
Record t := mk { mCenter : vec2.t }.

(** Modelled from the spec: [getCenter()], the shaken centre. *)
Definition getCenter (s : t) : vec2.t := mCenter s.
End CameraShake.

(** * The graphics surface *)

Module gl.
Inductive capability := SCISSOR_TEST.
Inductive buffer := COLOR_BUFFER_BIT.

(** Modelled from the spec: the graphics surface (the WebGL context that
    gl.js hands out, not under src/), which is one shared object.  These
    are the calls the camera makes on it; the model keeps them in the
    order they were made. *)
Inductive call :=
| viewport (x y w h : R)
| scissor (x y w h : R)
| clearColor (r g b a : R)
| enable (c : capability)
| clear (m : buffer)
| disable (c : capability).

(** The scissor test after one call, [on] being its state before. *)
Definition scissorAfter (on : bool) (c : call) : bool :=
  match c with
  | enable SCISSOR_TEST => true
  | disable SCISSOR_TEST => false
  | _ => on
  end.

(** Every [clear] of the sequence finds the scissor test enabled, when
    the sequence starts with the test in state [on]. *)
Fixpoint clearsScissored (on : bool) (cs : list call) : bool :=
  match cs with
  | [] => true
  | c :: cs =>
      match c with clear _ => on | _ => true end
      && clearsScissored (scissorAfter on c) cs
  end.

(** The scissor test after a sequence of calls. *)
Definition scissorAfterAll (on : bool) (cs : list call) : bool :=
  fold_left scissorAfter cs on.
End gl.

(** * camera.js *)

Module eViewport.
Definition eOrgX : nat := 0.
Definition eOrgY : nat := 1.
Definition eWidth : nat := 2.
Definition eHeight : nat := 3.
End eViewport.

Module PerRenderCache.
(** Information updated once per render. *)
Record t := mk {
  mWCToPixelRatio : R;
  mCameraOrgX : R;
  mCameraOrgY : R;
  mCameraPosInPixelSpace : vec3.t }.

Definition new : t := mk 1 1 1 (vec3.fromValues 0 0 0).
End PerRenderCache.

Module Camera.
Import eViewport eBoundCollideStatus.
Local Open Scope R_scope.

(** The fields of a camera.  [mViewport], [mScissorBound] and [mBGColor]
    are references to arrays of the store. *)
Record t := mk {
  mCameraState : CameraState.t;
  mCameraShake : option CameraShake.t;
  mViewport : loc;
  mViewportBound : R;
  mScissorBound : loc;
  kCameraZ : R;
  mCameraMatrix : mat4.t;
  mBGColor : loc;
  mRenderCache : PerRenderCache.t }.

Definition getWCCenter (c : t) : vec2.t :=
  CameraState.getCenter (mCameraState c).

Definition setWCCenter (c : t) (xPos yPos : R) : t :=
  let p := vec2.fromValues xPos yPos in
  mk (CameraState.setCenter (mCameraState c) p) (mCameraShake c)
     (mViewport c) (mViewportBound c) (mScissorBound c) (kCameraZ c)
     (mCameraMatrix c) (mBGColor c) (mRenderCache c).

Definition getWCCenterInPixelSpace (c : t) : vec3.t :=
  PerRenderCache.mCameraPosInPixelSpace (mRenderCache c).

Definition setWCWidth (c : t) (width : R) : t :=
  mk (CameraState.setWidth (mCameraState c) width) (mCameraShake c)
     (mViewport c) (mViewportBound c) (mScissorBound c) (kCameraZ c)
     (mCameraMatrix c) (mBGColor c) (mRenderCache c).

Definition getWCWidth (c : t) : R :=
  CameraState.getWidth (mCameraState c).

Definition getWCHeight (c : t) (h : heap) : option R :=
  vh ← load h (mViewport c) eHeight;
  vw ← load h (mViewport c) eWidth;
  ratio ← js_div vh vw;
  Some (getWCWidth c * ratio).

(** The eight assignments of [setViewport], on the two arrays [vp]
    ([this.mViewport]) and [sb] ([this.mScissorBound]). *)
Definition setViewportArrays (vp sb : loc) (viewportArray : loc) (bound : R)
    (h : heap) : option heap :=
  a0 ← load h viewportArray 0; h ← store h vp 0 (a0 + bound);
  a1 ← load h viewportArray 1; h ← store h vp 1 (a1 + bound);
  a2 ← load h viewportArray 2; h ← store h vp 2 (a2 - 2 * bound);
  a3 ← load h viewportArray 3; h ← store h vp 3 (a3 - 2 * bound);
  a0 ← load h viewportArray 0; h ← store h sb 0 a0;
  a1 ← load h viewportArray 1; h ← store h sb 1 a1;
  a2 ← load h viewportArray 2; h ← store h sb 2 a2;
  a3 ← load h viewportArray 3; store h sb 3 a3.

(** [bound] is [None] when the caller leaves it out. *)
Definition setViewport (c : t) (viewportArray : loc) (bound : option R)
    (h : heap) : option heap :=
  let bound := default (mViewportBound c) bound in
  setViewportArrays (mViewport c) (mScissorBound c) viewportArray bound h.

(** The result is the reference to the new array [out]. *)
Definition getViewport (c : t) (h : heap) : option (loc * heap) :=
  let '(out, h) := alloc h [] in
  s0 ← load h (mScissorBound c) 0; h ← store h out 0 s0;
  s1 ← load h (mScissorBound c) 1; h ← store h out 1 s1;
  s2 ← load h (mScissorBound c) 2; h ← store h out 2 s2;
  s3 ← load h (mScissorBound c) 3; h ← store h out 3 s3;
  Some (out, h).

Definition setBackgroundColor (c : t) (newColor : loc) : t :=
  mk (mCameraState c) (mCameraShake c) (mViewport c) (mViewportBound c)
     (mScissorBound c) (kCameraZ c) (mCameraMatrix c) newColor
     (mRenderCache c).

Definition getBackgroundColor (c : t) : loc := mBGColor c.

(** The constructor; [bound] is [None] when the caller leaves it out. *)
Definition new (wcCenter : vec2.t) (wcWidth : R) (viewportArray : loc)
    (bound : option R) (h : heap) : option (t * heap) :=
  let cameraState := CameraState.new wcCenter wcWidth in
  let '(viewport, h) := alloc h [] in
  let viewportBound := default 0 bound in
  let '(scissorBound, h) := alloc h [] in
  h ← setViewportArrays viewport scissorBound viewportArray viewportBound h;
  let '(bgColor, h) := alloc h [0.8; 0.8; 0.8; 1] in
  Some (mk cameraState None viewport viewportBound scissorBound 10
           mat4.create bgColor PerRenderCache.new, h).

(** Modelled from the spec: [fakeZInPixelSpace] of camera_xform.js, which
    is not under src/; a depth converted with the cached ratio. *)
Definition fakeZInPixelSpace (cache : PerRenderCache.t) (z : R) : R :=
  z * PerRenderCache.mWCToPixelRatio cache.

(** Modelled from the spec: [wcPosToPixel] of camera_xform.js, which is
    not under src/; [pixel = (worldPoint - cameraOrgXY) * wcToPixelRatio],
    with the cached ratio and origin. *)
Definition wcPosToPixel (cache : PerRenderCache.t) (p : vec2.t) : vec2.t :=
  vec2.mk
    ((vec2.x p - PerRenderCache.mCameraOrgX cache)
     * PerRenderCache.mWCToPixelRatio cache)
    ((vec2.y p - PerRenderCache.mCameraOrgY cache)
     * PerRenderCache.mWCToPixelRatio cache).

(** The centre the frame is drawn around (step B of
    [setViewAndCameraMatrix]). *)
Definition effectiveCenter (c : t) : vec2.t :=
  match mCameraShake c with
  | Some shake => CameraShake.getCenter shake
  | None => getWCCenter c
  end.

(** Steps A1 to A4 of [setViewAndCameraMatrix]: the calls on the graphics
    surface, added to those made so far. *)
Definition setView (c : t) (h : heap) (log : list gl.call)
    : option (list gl.call) :=
  v0 ← load h (mViewport c) 0; v1 ← load h (mViewport c) 1;
  v2 ← load h (mViewport c) 2; v3 ← load h (mViewport c) 3;
  let log := log ++ [gl.viewport v0 v1 v2 v3] in
  s0 ← load h (mScissorBound c) 0; s1 ← load h (mScissorBound c) 1;
  s2 ← load h (mScissorBound c) 2; s3 ← load h (mScissorBound c) 3;
  let log := log ++ [gl.scissor s0 s1 s2 s3] in
  c0 ← load h (mBGColor c) 0; c1 ← load h (mBGColor c) 1;
  c2 ← load h (mBGColor c) 2; c3 ← load h (mBGColor c) 3;
  let log := log ++ [gl.clearColor c0 c1 c2 c3] in
  let log := log ++ [gl.enable gl.SCISSOR_TEST] in
  let log := log ++ [gl.clear gl.COLOR_BUFFER_BIT] in
  let log := log ++ [gl.disable gl.SCISSOR_TEST] in
  Some log.

(** Step B of [setViewAndCameraMatrix]: the camera matrix and the
    per-render cache. *)
Definition setCameraMatrix (c : t) (h : heap) : option t :=
  let center := effectiveCenter c in
  sx ← js_div 2 (getWCWidth c);
  wcHeight ← getWCHeight c h;
  sy ← js_div 2 wcHeight;
  sz ← js_div 1 (kCameraZ c);
  let m := mat4.scale mat4.create (vec3.fromValues sx sy sz) in
  let m :=
    mat4.translate m
      (vec3.fromValues (- vec2.x center) (- vec2.y center)
         (- kCameraZ c / 2)) in
  vw ← load h (mViewport c) eWidth;
  ratio ← js_div vw (getWCWidth c);
  let orgX := vec2.x center - getWCWidth c / 2 in
  wcHeight ← getWCHeight c h;
  let orgY := vec2.y center - wcHeight / 2 in
  let cache :=
    PerRenderCache.mk ratio orgX orgY
      (PerRenderCache.mCameraPosInPixelSpace (mRenderCache c)) in
  let p := wcPosToPixel cache (getWCCenter c) in
  let cache :=
    PerRenderCache.mk ratio orgX orgY
      (vec3.mk (vec2.x p) (vec2.y p)
         (fakeZInPixelSpace cache (kCameraZ c))) in
  Some (mk (mCameraState c) (mCameraShake c) (mViewport c)
           (mViewportBound c) (mScissorBound c) (kCameraZ c) m
           (mBGColor c) cache).

(** The result is the camera after the call and the calls made on the
    graphics surface so far. *)
Definition setViewAndCameraMatrix (c : t) (h : heap) (log : list gl.call)
    : option (t * list gl.call) :=
  log ← setView c h log;
  c ← setCameraMatrix c h;
  Some (c, log).

Definition getCameraMatrix (c : t) : mat4.t := mCameraMatrix c.

Definition collideWCBound (c : t) (h : heap) (aXform : Transform.t)
    (zone : R) : option Z :=
  let bbox :=
    BoundingBox.new (Transform.getPosition aXform)
      (Transform.getWidth aXform) (Transform.getHeight aXform) in
  let w := zone * getWCWidth c in
  wcHeight ← getWCHeight c h;
  let h := zone * wcHeight in
  let cameraBound := BoundingBox.new (getWCCenter c) w h in
  Some (BoundingBox.boundCollideStatus cameraBound bbox).

(** [(status & flag) !== 0]. *)
Definition collides (status flag : Z) : bool :=
  negb (Z.eqb (Z.land status flag) 0).

(** The result is the status and the transform with its position as the
    call leaves it.  This is the method in exact arithmetic;
    [rounded.clampAtBoundary] has its roundings and
    [binary64.clampAtBoundary] runs it on doubles. *)
Definition clampAtBoundary (c : t) (h : heap) (aXform : Transform.t)
    (zone : R) : option (Z * Transform.t) :=
  status ← collideWCBound c h aXform zone;
  if negb (Z.eqb status eInside) then
    let pos := Transform.getPosition aXform in
    pos ←
      (if collides status eCollideTop then
         wcHeight ← getWCHeight c h;
         Some (vec2.set1 pos
                 (vec2.y (getWCCenter c) + zone * wcHeight / 2
                  - Transform.getHeight aXform / 2))
       else Some pos);
    pos ←
      (if collides status eCollideBottom then
         wcHeight ← getWCHeight c h;
         Some (vec2.set1 pos
                 (vec2.y (getWCCenter c) - zone * wcHeight / 2
                  + Transform.getHeight aXform / 2))
       else Some pos);
    pos ←
      (if collides status eCollideRight then
         Some (vec2.set0 pos
                 (vec2.x (getWCCenter c) + zone * getWCWidth c / 2
                  - Transform.getWidth aXform / 2))
       else Some pos);
    pos ←
      (if collides status eCollideLeft then
         Some (vec2.set0 pos
                 (vec2.x (getWCCenter c) - zone * getWCWidth c / 2
                  + Transform.getWidth aXform / 2))
       else Some pos);
    Some (status, Transform.withPosition aXform pos)
  else Some (status, aXform).


(** The same for [pos[0]]: the left edge is written after the right
    edge. *)
Definition lastClampX (status : Z) : option Z :=
  if Z.eqb status eInside then None
  else if collides status eCollideLeft then Some eCollideLeft
  else if collides status eCollideRight then Some eCollideRight
  else None.

(** What the constructor establishes and the methods keep: [mViewport]
    and [mScissorBound] are two distinct arrays of the store, of four
    numbers each. *)
Definition wellFormed (c : t) (h : heap) : Prop :=
  mViewport c ≠ mScissorBound c ∧
  ∃ vp sb : list R,
    h !! mViewport c = Some vp ∧ length vp = 4%nat ∧
    h !! mScissorBound c = Some sb ∧ length sb = 4%nat.

(** A camera ready to draw: a positive width, the depth constant of the
    constructor, a pixel viewport of positive size [vw] by [vh], and four
    numbers in the scissor rectangle and in the background colour. *)
Definition valid (c : t) (h : heap) (vw vh : R) : Prop :=
  0 < getWCWidth c ∧ kCameraZ c = 10 ∧ 0 < vw ∧ 0 < vh ∧
  (∃ vx vy : R, h !! mViewport c = Some [vx; vy; vw; vh]) ∧
  (∃ s0 s1 s2 s3 : R, h !! mScissorBound c = Some [s0; s1; s2; s3]) ∧
  (∃ c0 c1 c2 c3 : R, h !! mBGColor c = Some [c0; c1; c2; c3]).

(** The array at [l] is none of the two arrays the camera keeps to
    itself. *)
Definition foreign (c : t) (l : loc) : Prop :=
  l ≠ mViewport c ∧ l ≠ mScissorBound c.
End Camera.

(** * game_object.js *)

Module Renderable.
(** Modelled from the spec: a renderable, whose classes are not under
    src/.  The game object reads its transform and asks whether it has a
    method [pixelTouches]; only the renderables that draw a texture do. *)
Record t := mk { mXform : Transform.t; hasPixelTouches : bool }.

(** Modelled from the spec: [getXform()]. *)
Definition getXform (r : t) : Transform.t := mXform r.
End Renderable.

Module RigidShape.
(** Modelled from the spec: a rigid shape, whose classes are not under
    src/.  The game object keeps the reference and calls [update()] and
    [draw(aCamera)] on it. *)
Record t := mk { ref : nat }.
End RigidShape.

Module GameObject.
Local Open Scope R_scope.

Record t := mk {
  mRenderComponent : Renderable.t;
  mVisible : bool;
  mCurrentFrontDir : vec2.t;
  mRigidBody : option RigidShape.t;
  mDrawRenderable : bool;
  mDrawRigidShape : bool }.

(** The calls a game object makes on its renderable and on its rigid
    shape, in the order they are made. *)
Inductive call :=
| Renderable_draw (r : Renderable.t) (aCamera : Camera.t)
| RigidShape_draw (b : RigidShape.t) (aCamera : Camera.t)
| RigidShape_update (b : RigidShape.t)
| Renderable_setColorArray (r : Renderable.t)
| Renderable_pixelTouches (r other : Renderable.t) (wcTouchPos : vec2.t).

Definition new (renderable : Renderable.t) : t :=
  mk renderable true (vec2.fromValues 0 1) None true false.

Definition getXform (g : t) : Transform.t :=
  Renderable.getXform (mRenderComponent g).

Definition getBBox (g : t) : BoundingBox.t :=
  let xform := getXform g in
  BoundingBox.new (Transform.getPosition xform) (Transform.getWidth xform)
    (Transform.getHeight xform).

Definition setVisibility (g : t) (f : bool) : t :=
  mk (mRenderComponent g) f (mCurrentFrontDir g) (mRigidBody g)
     (mDrawRenderable g) (mDrawRigidShape g).

Definition isVisible (g : t) : bool := mVisible g.

Definition setCurrentFrontDir (g : t) (f : vec2.t) : t :=
  mk (mRenderComponent g) (mVisible g)
     (vec2.normalize (mCurrentFrontDir g) f) (mRigidBody g)
     (mDrawRenderable g) (mDrawRigidShape g).

Definition getCurrentFrontDir (g : t) : vec2.t := mCurrentFrontDir g.

(** [getCurrentFrontDir()] returns the array of the game object, not a
    copy: the game object after a client has written [v] to the index [i]
    of the array it got.  The vector has the indices 0 and 1. *)
Definition writeFrontDir (g : t) (i : nat) (v : R) : t :=
  mk (mRenderComponent g) (mVisible g)
     (match i with
      | 0%nat => vec2.set0 (mCurrentFrontDir g) v
      | 1%nat => vec2.set1 (mCurrentFrontDir g) v
      | _ => mCurrentFrontDir g
      end)
     (mRigidBody g) (mDrawRenderable g) (mDrawRigidShape g).

Definition getRenderable (g : t) : Renderable.t := mRenderComponent g.

Definition setRigidBody (g : t) (r : option RigidShape.t) : t :=
  mk (mRenderComponent g) (mVisible g) (mCurrentFrontDir g) r
     (mDrawRenderable g) (mDrawRigidShape g).

Definition getRigidBody (g : t) : option RigidShape.t := mRigidBody g.

Definition toggleDrawRenderable (g : t) : t :=
  mk (mRenderComponent g) (mVisible g) (mCurrentFrontDir g) (mRigidBody g)
     (negb (mDrawRenderable g)) (mDrawRigidShape g).

Definition toggleDrawRigidShape (g : t) : t :=
  mk (mRenderComponent g) (mVisible g) (mCurrentFrontDir g) (mRigidBody g)
     (mDrawRenderable g) (negb (mDrawRigidShape g)).

Definition draw (g : t) (aCamera : Camera.t) : list call :=
  if isVisible g then
    (if mDrawRenderable g
     then [Renderable_draw (mRenderComponent g) aCamera] else [])
    ++ match mRigidBody g with
       | Some b =>
           if mDrawRigidShape g then [RigidShape_draw b aCamera] else []
       | None => []
       end
  else [].

Definition update (g : t) : list call :=
  match mRigidBody g with
  | Some b => [RigidShape_update b]
  | None => []
  end.

(** The transform of the renderable is an object of its own, which the
    rigid shape and the game move: the game object after such a write. *)
Definition withXform (g : t) (x : Transform.t) : t :=
  mk (Renderable.mk x (Renderable.hasPixelTouches (mRenderComponent g)))
     (mVisible g) (mCurrentFrontDir g) (mRigidBody g)
     (mDrawRenderable g) (mDrawRigidShape g).

Section PixelCollision.

(** The answer of the method [pixelTouches] of a renderable that has one;
    the method is not under src/. *)
Variable texelsTouch : Renderable.t -> Renderable.t -> vec2.t -> bool.

(** The result is the answer and the calls made on the two renderables. *)
Definition pixelTouches (this otherObj : t) (wcTouchPos : vec2.t)
    : bool * list call :=
  let pixelTouch := false in
  let myRen := getRenderable this in
  let otherRen := getRenderable otherObj in
  if Renderable.hasPixelTouches myRen
     && Renderable.hasPixelTouches otherRen then
    if Reqb (Transform.getRotationInRad (Renderable.getXform myRen)) 0
       && Reqb (Transform.getRotationInRad (Renderable.getXform otherRen)) 0
    then
      let otherBbox := getBBox otherObj in
      if BoundingBox.intersectsBound otherBbox (getBBox this) then
        (texelsTouch myRen otherRen wcTouchPos,
         [Renderable_setColorArray myRen; Renderable_setColorArray otherRen;
          Renderable_pixelTouches myRen otherRen wcTouchPos])
      else (pixelTouch, [])
    else
      let mySize := Transform.getSize (Renderable.getXform myRen) in
      let otherSize := Transform.getSize (Renderable.getXform otherRen) in
      let myR :=
        sqrt (0.5 * vec2.x mySize * 0.5 * vec2.x mySize
              + 0.5 * vec2.y mySize * 0.5 * vec2.y mySize) in
      let otherR :=
        sqrt (0.5 * vec2.x otherSize * 0.5 * vec2.x otherSize
              + 0.5 * vec2.y otherSize * 0.5 * vec2.y otherSize) in
      let d :=
        vec2.sub (Transform.getPosition (Renderable.getXform myRen))
          (Transform.getPosition (Renderable.getXform otherRen)) in
      if Rltb (vec2.length d) (myR + otherR) then
        (texelsTouch myRen otherRen wcTouchPos,
         [Renderable_setColorArray myRen; Renderable_setColorArray otherRen;
          Renderable_pixelTouches myRen otherRen wcTouchPos])
      else (pixelTouch, [])
  else (pixelTouch, []).

End PixelCollision.

(** What a client can do to a game object: a method of the class, a
    write to the transform that [getXform()] hands out, or a write to the
    array that [getCurrentFrontDir()] hands out. *)
Inductive operation :=
| op_setVisibility (f : bool)
| op_setCurrentFrontDir (f : vec2.t)
| op_setRigidBody (r : option RigidShape.t)
| op_toggleDrawRenderable
| op_toggleDrawRigidShape
| op_draw (aCamera : Camera.t)
| op_update
| op_pixelTouches (otherObj : t) (wcTouchPos : vec2.t)
| op_moveXform (x : Transform.t)
| op_writeFrontDir (i : nat) (v : R).

(** The game object after one operation. *)
Definition perform (g : t) (o : operation) : t :=
  match o with
  | op_setVisibility f => setVisibility g f
  | op_setCurrentFrontDir f => setCurrentFrontDir g f
  | op_setRigidBody r => setRigidBody g r
  | op_toggleDrawRenderable => toggleDrawRenderable g
  | op_toggleDrawRigidShape => toggleDrawRigidShape g
  | op_draw _ => g
  | op_update => g
  | op_pixelTouches _ _ => g
  | op_moveXform x => withXform g x
  | op_writeFrontDir i v => writeFrontDir g i v
  end.

(** The game object after a sequence of operations. *)
Definition performAll (g : t) (os : list operation) : t :=
  fold_left perform os g.

(** The vectors a sequence of operations passes to
    [setCurrentFrontDir]. *)
Definition frontDirArguments (os : list operation) : list vec2.t :=
  omap (λ o, match o with op_setCurrentFrontDir f => Some f | _ => None end)
    os.

(** The flags a sequence of operations passes to [setVisibility], and the
    rigid bodies ([null] is [None]) it passes to [setRigidBody]. *)
Definition visibilityArguments (os : list operation) : list bool :=
  omap (λ o, match o with op_setVisibility f => Some f | _ => None end) os.

Definition rigidBodyArguments (os : list operation)
    : list (option RigidShape.t) :=
  omap (λ o, match o with op_setRigidBody r => Some r | _ => None end) os.

(** How often a sequence of operations calls [toggleDrawRenderable], and
    how often [toggleDrawRigidShape]. *)
Definition renderableToggles (os : list operation) : nat :=
  length
    (omap (λ o, match o with op_toggleDrawRenderable => Some () | _ => None end)
       os).

Definition rigidShapeToggles (os : list operation) : nat :=
  length
    (omap (λ o, match o with op_toggleDrawRigidShape => Some () | _ => None end)
       os).

(** The writes that a sequence of operations makes through the array
    that [getCurrentFrontDir()] hands out. *)
Definition frontDirWrites (os : list operation) : list (nat * R) :=
  omap (λ o, match o with op_writeFrontDir i v => Some (i, v) | _ => None end)
    os.
End GameObject.

(** * Rounded arithmetic *)

Module rounded.
Import eViewport eBoundCollideStatus.
Local Open Scope R_scope.

(** The releases of gl-matrix, which differ in what [vec2.normalize] does
    with a vector whose squared length is not positive. *)
Inductive release := gl_matrix_2 | gl_matrix_3.

(** The usual model of a rounding [r]: for an exact result [t] of
    magnitude at most [huge] it returns a number, off by at most the
    relative error [u] and the absolute error [eta] (the latter for the
    results close to zero). *)
Definition accurate (r : R → option R) (u eta huge : R) : Prop :=
  ∀ t : R,
    Rabs t <= huge →
    ∃ v : R, r t = Some v ∧ Rabs (v - t) <= u * Rabs t + eta.

(** The squared lengths from [lo] to [hi] stay clear of overflow and of
    underflow, for a rounding of relative error [u], absolute error [eta]
    and range [huge], and for arrays that hold a number of magnitude at
    most 2 to within the relative error [u'] and the absolute error
    [eta']. *)
Definition safeRange (u eta huge u' eta' huge' lo hi : R) : Prop :=
  0 <= u <= 1 / 100 ∧ 0 <= eta ∧ 0 <= u' <= 1 / 100 ∧
  0 <= eta' <= 1 / 100 ∧ 2 <= huge' ∧
  0 < lo <= 1 ∧ 1 <= hi ∧
  eta <= u * lo ∧ eta * hi <= u ∧ 4 * hi <= huge ∧ 2 <= lo * huge.

(** The parameters of the doubles (binary64, rounding to the nearest):
    relative error, absolute error of the results near zero, and a
    magnitude below the largest double. *)
Definition u64 : R := / 2 ^ 53.
Definition eta64 : R := / 2 ^ 1075.
Definition huge64 : R := 2 ^ 1023.

(** The same for a number written to an array of single precision
    (binary32). *)
Definition u32 : R := / 2 ^ 24.
Definition eta32 : R := / 2 ^ 150.
Definition huge32 : R := 2 ^ 127.

Section Rounding.

(** The number an operation on doubles returns when its exact result is
    [x]; [None] when that is no finite number. *)
Variable rnd : R → option R.

(** The number an array of gl-matrix holds after [x] was written to it
    ([x] itself in an array of doubles, [x] rounded once more in a typed
    array of single precision); [None] when that is no finite number. *)
Variable toArray : R → option R.

Definition add (x y : R) : option R := rnd (x + y).
Definition sub (x y : R) : option R := rnd (x - y).
Definition mul (x y : R) : option R := rnd (x * y).
Definition div (n d : R) : option R :=
  if Req_dec_T d 0 then None else rnd (n / d).
(** [Math.sqrt(x)]. *)
Definition sqrt (x : R) : option R :=
  if Rltb x 0 then None else rnd (R_sqrt.sqrt x).

(** ** camera.js *)

(** Modelled from the spec: the class [BoundingBox] of bounding_box.js is
    not under src/; here it is any type of boxes, with any constructor
    and any collide-status query. *)
Variable box : Type.
Variable newBoundingBox : vec2.t → R → R → box.
Variable boundCollideStatus : box → box → Z.

Definition getWCHeight (c : Camera.t) (h : heap) : option R :=
  vh ← load h (Camera.mViewport c) eHeight;
  vw ← load h (Camera.mViewport c) eWidth;
  ratio ← div vh vw;
  mul (Camera.getWCWidth c) ratio.

Definition collideWCBound (c : Camera.t) (h : heap) (aXform : Transform.t)
    (zone : R) : option Z :=
  let bbox :=
    newBoundingBox (Transform.getPosition aXform)
      (Transform.getWidth aXform) (Transform.getHeight aXform) in
  w ← mul zone (Camera.getWCWidth c);
  wcHeight ← getWCHeight c h;
  h ← mul zone wcHeight;
  let cameraBound := newBoundingBox (Camera.getWCCenter c) w h in
  Some (boundCollideStatus cameraBound bbox).

(** The number that the assignment for the top edge (line 272) leaves in
    [pos[1]]. *)
Definition atTop (c : Camera.t) (h : heap) (aXform : Transform.t)
    (zone : R) : option R :=
  wcHeight ← getWCHeight c h;
  zh ← mul zone wcHeight; half ← div zh 2;
  s ← add (vec2.y (Camera.getWCCenter c)) half;
  oh ← div (Transform.getHeight aXform) 2;
  v ← sub s oh; toArray v.

(** The same for the bottom edge (line 275). *)
Definition atBottom (c : Camera.t) (h : heap) (aXform : Transform.t)
    (zone : R) : option R :=
  wcHeight ← getWCHeight c h;
  zh ← mul zone wcHeight; half ← div zh 2;
  s ← sub (vec2.y (Camera.getWCCenter c)) half;
  oh ← div (Transform.getHeight aXform) 2;
  v ← add s oh; toArray v.

(** The same for the right edge (line 278), in [pos[0]]. *)
Definition atRight (c : Camera.t) (aXform : Transform.t) (zone : R)
    : option R :=
  zw ← mul zone (Camera.getWCWidth c); half ← div zw 2;
  s ← add (vec2.x (Camera.getWCCenter c)) half;
  ow ← div (Transform.getWidth aXform) 2;
  v ← sub s ow; toArray v.

(** The same for the left edge (line 281). *)
Definition atLeft (c : Camera.t) (aXform : Transform.t) (zone : R)
    : option R :=
  zw ← mul zone (Camera.getWCWidth c); half ← div zw 2;
  s ← sub (vec2.x (Camera.getWCCenter c)) half;
  ow ← div (Transform.getWidth aXform) 2;
  v ← add s ow; toArray v.

(** The result is the status and the transform with its position as the
    call leaves it. *)
Definition clampAtBoundary (c : Camera.t) (h : heap) (aXform : Transform.t)
    (zone : R) : option (Z * Transform.t) :=
  status ← collideWCBound c h aXform zone;
  if negb (Z.eqb status eInside) then
    let pos := Transform.getPosition aXform in
    pos ←
      (if Camera.collides status eCollideTop then
         v ← atTop c h aXform zone; Some (vec2.set1 pos v)
       else Some pos);
    pos ←
      (if Camera.collides status eCollideBottom then
         v ← atBottom c h aXform zone; Some (vec2.set1 pos v)
       else Some pos);
    pos ←
      (if Camera.collides status eCollideRight then
         v ← atRight c aXform zone; Some (vec2.set0 pos v)
       else Some pos);
    pos ←
      (if Camera.collides status eCollideLeft then
         v ← atLeft c aXform zone; Some (vec2.set0 pos v)
       else Some pos);
    Some (status, Transform.withPosition aXform pos)
  else Some (status, aXform).

(** ** game_object.js *)

(** Modelled from the spec: [vec2.normalize(out, a)] of the gl-matrix
    library, which is not under src/, with its roundings.  The library
    computes the squared length [len = x * x + y * y]; when that is
    positive it scales [a] by [1 / Math.sqrt(len)] and writes the two
    products to [out].  Otherwise release 2 leaves [out] as it is, and
    release 3 writes the products of [a] with [len]. *)
Definition normalize (rel : release) (out a : vec2.t) : option vec2.t :=
  let x := vec2.x a in
  let y := vec2.y a in
  xx ← mul x x; yy ← mul y y;
  len ← add xx yy;
  if Rgtb len 0 then
    root ← sqrt len;
    len ← div 1 root;
    p0 ← mul (vec2.x a) len; o0 ← toArray p0;
    p1 ← mul (vec2.y a) len; o1 ← toArray p1;
    Some (vec2.mk o0 o1)
  else
    match rel with
    | gl_matrix_2 => Some out
    | gl_matrix_3 =>
        p0 ← mul (vec2.x a) len; o0 ← toArray p0;
        p1 ← mul (vec2.y a) len; o1 ← toArray p1;
        Some (vec2.mk o0 o1)
    end.

Definition setCurrentFrontDir (rel : release) (g : GameObject.t)
    (f : vec2.t) : option GameObject.t :=
  d ← normalize rel (GameObject.mCurrentFrontDir g) f;
  Some (GameObject.mk (GameObject.mRenderComponent g)
          (GameObject.mVisible g) d (GameObject.mRigidBody g)
          (GameObject.mDrawRenderable g) (GameObject.mDrawRigidShape g)).

(** The game object after one operation: [setCurrentFrontDir] and the
    writes to the array of the front direction round, the other
    operations compute nothing. *)
Definition perform (rel : release) (g : GameObject.t)
    (o : GameObject.operation) : option GameObject.t :=
  match o with
  | GameObject.op_setCurrentFrontDir f => setCurrentFrontDir rel g f
  | GameObject.op_writeFrontDir i v =>
      v ← toArray v; Some (GameObject.writeFrontDir g i v)
  | _ => Some (GameObject.perform g o)
  end.

(** The game object after a sequence of operations. *)
Definition performAll (rel : release) (g : GameObject.t)
    (os : list GameObject.operation) : option GameObject.t :=
  fold_left (λ acc o, g ← acc; perform rel g o) os (Some g).

End Rounding.
End rounded.

(** * The doubles of the machine *)

Module binary64.
Import PrimFloat eBoundCollideStatus.
Local Open Scope float_scope.

(** A vector of gl-matrix, in an array of doubles. *)
Record vec2 := mk { x : float; y : float }.

(** Modelled from the spec: [vec2.length] of the gl-matrix library, which
    is not under src/; the Euclidean length. *)
Definition length (a : vec2) : float := sqrt (x a * x a + y a * y a).

(** Modelled from the spec: [vec2.normalize(out, a)] of the gl-matrix
    library, which is not under src/, on doubles; see
    [rounded.normalize]. *)
Definition normalize (rel : rounded.release) (out a : vec2) : vec2 :=
  let len := x a * x a + y a * y a in
  if ltb 0 len then
    let len := 1 / sqrt len in
    mk (x a * len) (y a * len)
  else
    match rel with
    | rounded.gl_matrix_2 => out
    | rounded.gl_matrix_3 => mk (x a * len) (y a * len)
    end.

(** The field [mCurrentFrontDir] of a game object after
    [setCurrentFrontDir(f)]; the method reads and writes no other
    field. *)
Definition setCurrentFrontDir (rel : rounded.release)
    (mCurrentFrontDir f : vec2) : vec2 :=
  normalize rel mCurrentFrontDir f.

(** Modelled from the spec: the class [BoundingBox] of bounding_box.js,
    which is not under src/, on doubles; see the module [BoundingBox]. *)
Record BoundingBox := mkBoundingBox {
  mLL : vec2; mWidth : float; mHeight : float }.

(** Modelled from the spec: the constructor, from the centre and the
    size. *)
Definition newBoundingBox (centerPos : vec2) (w h : float) : BoundingBox :=
  mkBoundingBox (mk (x centerPos - w / 2) (y centerPos - h / 2)) w h.

(** Modelled from the spec: the four edges. *)
Definition minX (b : BoundingBox) : float := x (mLL b).
Definition maxX (b : BoundingBox) : float := x (mLL b) + mWidth b.
Definition minY (b : BoundingBox) : float := y (mLL b).
Definition maxY (b : BoundingBox) : float := y (mLL b) + mHeight b.

(** Modelled from the spec: the collide-status query; see
    [BoundingBox.boundCollideStatus]. *)
Definition boundCollideStatus (this otherBound : BoundingBox) : Z :=
  let status := 0%Z in
  let status :=
    if ltb (minX otherBound) (minX this)
    then Z.lor status eCollideLeft else status in
  let status :=
    if ltb (maxX this) (maxX otherBound)
    then Z.lor status eCollideRight else status in
  let status :=
    if ltb (minY otherBound) (minY this)
    then Z.lor status eCollideBottom else status in
  let status :=
    if ltb (maxY this) (maxY otherBound)
    then Z.lor status eCollideTop else status in
  if Z.eqb status 0 then eInside else status.

(** What [collideWCBound] and [clampAtBoundary] read of a camera: the
    centre and the width of the world window, and the width and the
    height of the pixel viewport. *)
Record Camera := mkCamera {
  wcCenter : vec2; wcWidth : float;
  viewportWidth : float; viewportHeight : float }.

(** What they read of a transform, and the position they write. *)
Record Transform := mkTransform {
  position : vec2; width : float; height : float }.

Definition getWCHeight (c : Camera) : float :=
  let ratio := viewportHeight c / viewportWidth c in
  wcWidth c * ratio.

Definition collideWCBound (c : Camera) (aXform : Transform) (zone : float)
    : Z :=
  let bbox :=
    newBoundingBox (position aXform) (width aXform) (height aXform) in
  let w := zone * wcWidth c in
  let h := zone * getWCHeight c in
  let cameraBound := newBoundingBox (wcCenter c) w h in
  boundCollideStatus cameraBound bbox.

Definition clampAtBoundary (c : Camera) (aXform : Transform) (zone : float)
    : Z * Transform :=
  let status := collideWCBound c aXform zone in
  if negb (Z.eqb status eInside) then
    let pos := position aXform in
    let pos :=
      if Camera.collides status eCollideTop then
        mk (x pos)
           (y (wcCenter c) + zone * getWCHeight c / 2 - height aXform / 2)
      else pos in
    let pos :=
      if Camera.collides status eCollideBottom then
        mk (x pos)
           (y (wcCenter c) - zone * getWCHeight c / 2 + height aXform / 2)
      else pos in
    let pos :=
      if Camera.collides status eCollideRight then
        mk (x (wcCenter c) + zone * wcWidth c / 2 - width aXform / 2)
           (y pos)
      else pos in
    let pos :=
      if Camera.collides status eCollideLeft then
        mk (x (wcCenter c) - zone * wcWidth c / 2 + width aXform / 2)
           (y pos)
      else pos in
    (status, mkTransform pos (width aXform) (height aXform))
  else (status, aXform).
End binary64.

(** * Scenarios *)

Module Scenario.
Local Open Scope R_scope.

(** The store of a game that holds one array, [[0, 0, 640, 480]]. *)
Definition rectangle : loc := 0%nat.
Definition store0 : heap := [[0; 0; 640; 480]].

(** The camera that [new Camera(vec2(0, 0), 20, [0, 0, 640, 480])] builds,
    and the store it leaves. *)
Definition camera : Camera.t :=
  Camera.mk (CameraState.mk (vec2.mk 0 0) 20) None 1%nat 0 2%nat 10
    mat4.create 3%nat PerRenderCache.new.
Definition store : heap :=
  [[0; 0; 640; 480];
   [0 + 0; 0 + 0; 640 - 2 * 0; 480 - 2 * 0];
   [0; 0; 640; 480];
   [0.8; 0.8; 0.8; 1]].

(** The same with a border of 40 pixels:
    [new Camera(vec2(0, 0), 20, [0, 0, 640, 480], 40)]. *)
Definition borderCamera : Camera.t :=
  Camera.mk (CameraState.mk (vec2.mk 0 0) 20) None 1%nat 40 2%nat 10
    mat4.create 3%nat PerRenderCache.new.
Definition borderStore : heap :=
  [[0; 0; 640; 480];
   [0 + 40; 0 + 40; 640 - 2 * 40; 480 - 2 * 40];
   [0; 0; 640; 480];
   [0.8; 0.8; 0.8; 1]].

(** [camera] while a shake moves the centre of the frame to (1, -1). *)
Definition shakenCamera : Camera.t :=
  Camera.mk (CameraState.mk (vec2.mk 0 0) 20)
    (Some (CameraShake.mk (vec2.mk 1 (-1)))) 1%nat 0 2%nat 10
    mat4.create 3%nat PerRenderCache.new.

(** An object of size 2 by 2 at (11, 0). *)
Definition hero : Transform.t :=
  Transform.mk (vec2.mk 11 0) (vec2.mk 2 2) 0.

(** An object of size 2 by 20 at (0, 0): taller than the world window of
    [camera], which is 15 high. *)
Definition tower : Transform.t :=
  Transform.mk (vec2.mk 0 0) (vec2.mk 2 20) 0.

(** A renderable that draws a texture and one that does not, and their
    game objects. *)
Definition sprite : Renderable.t := Renderable.mk hero true.
Definition square : Renderable.t := Renderable.mk tower false.
Definition spriteObject : GameObject.t := GameObject.new sprite.
Definition squareObject : GameObject.t := GameObject.new square.

(** A rounding of doubles that is off by the whole relative error, and
    the same for an array of single precision. *)
Definition roundsUp : R → option R := λ t, Some (t + t / 2 ^ 53).
Definition roundsUp32 : R → option R := λ t, Some (t + t / 2 ^ 24).

(** A game in which the object turns twice. *)
Definition turns : list GameObject.operation :=
  [GameObject.op_setCurrentFrontDir (vec2.mk 3 4);
   GameObject.op_toggleDrawRenderable;
   GameObject.op_update;
   GameObject.op_setCurrentFrontDir (vec2.mk 0 (-2))].

(** A game in which a client writes to the array that
    [getCurrentFrontDir()] returned. *)
Definition scribbles : list GameObject.operation :=
  [GameObject.op_writeFrontDir 0 2].
End Scenario.

Module Scenario64.
Import PrimFloat.
Local Open Scope float_scope.

(** A vector of doubles whose squared length is beyond the doubles:
    (2^600, 2^600). *)
Definition giant : binary64.vec2 :=
  binary64.mk 0x1p+600 0x1p+600.

(** A vector of doubles whose squared length is below the doubles:
    (2^-600, 0). *)
Definition dwarf : binary64.vec2 :=
  binary64.mk 0x1p-600 0.

(** A camera on doubles, of centre (-1.8, 0) and width 0.7 in a viewport
    of 640 by 480, and an object of 0.7 by 0.1 at (-1.45, 0): as wide as
    the world window. *)
Definition narrowCamera : binary64.Camera :=
  binary64.mkCamera
    (binary64.mk (-0x1.ccccccccccccdp+0) 0)
    0x1.6666666666666p-1 640 480.
Definition plank : binary64.Transform :=
  binary64.mkTransform
    (binary64.mk (-0x1.7333333333333p+0) 0)
    0x1.6666666666666p-1 0x1.999999999999ap-4.
End Scenario64.

(** * The state of the graphics surface *)

Module surface.
(** Modelled from the spec: the part of the state of the graphics surface
    that the calls of the camera write (the WebGL context is not under
    src/): the pixel viewport, the scissor rectangle, the clear colour and
    the scissor test. *)
Record t := mk {
  viewportBox : list R;
  scissorBox : list R;
  clearColorValue : list R;
  scissorTest : bool }.

(** Modelled from the spec: the state after one call. *)
Definition exec (s : t) (c : gl.call) : t :=
  match c with
  | gl.viewport x y w h =>
      mk [x; y; w; h] (scissorBox s) (clearColorValue s) (scissorTest s)
  | gl.scissor x y w h =>
      mk (viewportBox s) [x; y; w; h] (clearColorValue s) (scissorTest s)
  | gl.clearColor r g b a =>
      mk (viewportBox s) (scissorBox s) [r; g; b; a] (scissorTest s)
  | gl.enable gl.SCISSOR_TEST =>
      mk (viewportBox s) (scissorBox s) (clearColorValue s) true
  | gl.disable gl.SCISSOR_TEST =>
      mk (viewportBox s) (scissorBox s) (clearColorValue s) false
  | gl.clear _ => s
  end.

(** Modelled from the spec: the state after a sequence of calls. *)
Definition run (s : t) (cs : list gl.call) : t := fold_left exec cs s.

(** Modelled from the spec: what a sequence of calls paints, clear after
    clear: the region (the scissor rectangle when the scissor test is
    enabled, [None] for the whole surface when it is not) and the
    colour. *)
Fixpoint painted (s : t) (cs : list gl.call)
    : list (option (list R) * list R) :=
  match cs with
  | [] => []
  | c :: cs =>
      match c with
      | gl.clear _ =>
          [(if scissorTest s then Some (scissorBox s) else None,
            clearColorValue s)]
      | _ => []
      end ++ painted (exec s c) cs
  end.
End surface.

(** * Properties *)

Local Open Scope R_scope.

(** ** Numbers *)

Lemma Rltb_lt (x y : R) : x < y → Rltb x y = true.
Proof.
  intros H. unfold Rltb.
  destruct (Rlt_dec x y); [reflexivity | contradiction].
Qed.

Lemma Rltb_nlt (x y : R) : y <= x → Rltb x y = false.
Proof. intros H. unfold Rltb. destruct (Rlt_dec x y); [lra | reflexivity]. Qed.

Lemma Rltb_true (x y : R) : Rltb x y = true ↔ x < y.
Proof. unfold Rltb. destruct (Rlt_dec x y); split; intros; try done. Qed.

Lemma Rltb_false (x y : R) : Rltb x y = false ↔ y <= x.
Proof. unfold Rltb. destruct (Rlt_dec x y); split; intros; try done; lra. Qed.

Lemma js_div_Some (n d : R) : d ≠ 0 → js_div n d = Some (n / d).
Proof.
  intros H. unfold js_div.
  destruct (Req_dec_T d 0); [contradiction | reflexivity].
Qed.

(** ** The store *)

Lemma load_eq (h : heap) (l : loc) (a : list R) (i : nat) :
  h !! l = Some a → load h l i = a !! i.
Proof. intros H. unfold load. rewrite H. reflexivity. Qed.

Lemma store_eq (h : heap) (l : loc) (a a' : list R) (i : nat) (v : R) :
  h !! l = Some a → js_set a i v = Some a' →
  store h l i v = Some (<[l := a']> h).
Proof.
  intros H1 H2. unfold store. rewrite H1. simpl. by rewrite H2.
Qed.

Lemma lookup_store_same (h : heap) (l : loc) (a a' : list R) :
  h !! l = Some a → <[l := a']> h !! l = Some a'.
Proof. intros H. apply list_lookup_insert_eq. by eapply lookup_lt_Some. Qed.

Lemma load_insert_ne (h : heap) (l l' : loc) (a : list R) (i : nat) :
  l ≠ l' → load (<[l := a]> h) l' i = load h l' i.
Proof. intros H. unfold load. by rewrite list_lookup_insert_ne. Qed.

Lemma store_insert_eq (h : heap) (l : loc) (a : list R) (i : nat) (v : R) :
  (l < length h)%nat →
  store (<[l := a]> h) l i v = a' ← js_set a i v; Some (<[l := a']> h).
Proof.
  intros H. unfold store. rewrite list_lookup_insert_eq by done. simpl.
  destruct (js_set a i v); simpl; [|done]. by rewrite list_insert_insert_eq.
Qed.

Lemma store_insert_ne (h : heap) (l l' : loc) (a b : list R) (i : nat)
    (v : R) :
  l ≠ l' → h !! l' = Some b →
  store (<[l := a]> h) l' i v
  = b' ← js_set b i v; Some (<[l' := b']> (<[l := a]> h)).
Proof.
  intros H1 H2. unfold store. rewrite list_lookup_insert_ne by done.
  by rewrite H2.
Qed.

(** A write to the array just allocated. *)
Lemma store_alloc (h : heap) (a : list R) (i : nat) (v : R) :
  store (h ++ [a]) (length h) i v = a' ← js_set a i v; Some (h ++ [a']).
Proof.
  unfold store. rewrite list_lookup_middle by done. simpl.
  destruct (js_set a i v) as [a'|]; simpl; [|done].
  f_equal. rewrite insert_app_r_alt by done.
  by rewrite Nat.sub_diag.
Qed.

Lemma load_alloc_old (h : heap) (a b : list R) (l : loc) (i : nat) :
  h !! l = Some b → load (h ++ [a]) l i = b !! i.
Proof.
  intros H. unfold load. rewrite lookup_app_l by (by eapply lookup_lt_Some).
  by rewrite H.
Qed.

(** A write inside an array changes one object of the store and no
    other. *)
Lemma store_other (h h' : heap) (l l' : loc) (i : nat) (v : R) :
  store h l i v = Some h' → l ≠ l' → h' !! l' = h !! l'.
Proof.
  unfold store. intros H Hne.
  destruct (h !! l) as [a|]; simpl in H; [|done].
  destruct (js_set a i v) as [a'|]; simpl in H; [|done].
  injection H as <-. by rewrite list_lookup_insert_ne.
Qed.

(** ** The cameras of the scenarios *)

Example new_camera :
  Camera.new (vec2.mk 0 0) 20 Scenario.rectangle None Scenario.store0
  = Some (Scenario.camera, Scenario.store).
Proof. reflexivity. Qed.

Example new_borderCamera :
  Camera.new (vec2.mk 0 0) 20 Scenario.rectangle (Some 40) Scenario.store0
  = Some (Scenario.borderCamera, Scenario.borderStore).
Proof. reflexivity. Qed.

(** ** setViewport and getViewport *)

Lemma setViewportArrays_eq (h : heap) (vp sb va : loc) (b x y w hh : R)
    (rest avp asb : list R) :
  vp ≠ sb → va ≠ vp → va ≠ sb →
  h !! va = Some (x :: y :: w :: hh :: rest) →
  h !! vp = Some avp → h !! sb = Some asb →
  Camera.setViewportArrays vp sb va b h
  = Some (<[sb := [x; y; w; hh] ++ drop 4 asb]>
            (<[vp := [x + b; y + b; w - 2 * b; hh - 2 * b] ++ drop 4 avp]>
               h)).
Proof.
  intros Hvs Hav Has Hva Hvp Hsb.
  assert (Lvp : (vp < length h)%nat) by (by eapply lookup_lt_Some).
  assert (Lsb : (sb < length h)%nat) by (by eapply lookup_lt_Some).
  unfold Camera.setViewportArrays.
  rewrite (load_eq h va _ _ Hva). simpl.
  destruct avp as [|p0 [|p1 [|p2 [|p3 avp]]]].
  all: (erewrite store_eq; [| eassumption | reflexivity]); simpl.
  all: repeat (rewrite load_insert_ne by done;
               rewrite (load_eq h va _ _ Hva); simpl;
               rewrite store_insert_eq by done; simpl).
  all: rewrite load_insert_ne by done; rewrite (load_eq h va _ _ Hva); simpl.
  all: rewrite (store_insert_ne _ _ _ _ asb) by done.
  all: destruct asb as [|q0 [|q1 [|q2 [|q3 asb]]]]; simpl.
  all: repeat (rewrite load_insert_ne by done;
               rewrite load_insert_ne by done;
               rewrite (load_eq h va _ _ Hva); simpl;
               rewrite store_insert_eq by (by rewrite length_insert); simpl).
  all: reflexivity.
Qed.

Lemma getViewport_eq (c : Camera.t) (h : heap) (s0 s1 s2 s3 : R)
    (rest : list R) :
  h !! Camera.mScissorBound c = Some (s0 :: s1 :: s2 :: s3 :: rest) →
  Camera.getViewport c h = Some (length h, h ++ [[s0; s1; s2; s3]]).
Proof.
  intros Hsb. unfold Camera.getViewport, alloc.
  repeat (erewrite load_alloc_old by eassumption; simpl;
          rewrite store_alloc; simpl).
  reflexivity.
Qed.

Lemma setViewport_eq (c : Camera.t) (h : heap) (va : loc) (x y w hh : R)
    (bound : option R) :
  Camera.wellFormed c h → Camera.foreign c va →
  h !! va = Some [x; y; w; hh] →
  let b := default (Camera.mViewportBound c) bound in
  Camera.setViewport c va bound h
  = Some (<[Camera.mScissorBound c := [x; y; w; hh]]>
            (<[Camera.mViewport c :=
                 [x + b; y + b; w - 2 * b; hh - 2 * b]]> h)).
Proof.
  intros (Hne & vp & sb & Hvp & Lvp & Hsb & Lsb) [Hf1 Hf2] Hva b.
  unfold Camera.setViewport.
  rewrite (setViewportArrays_eq h _ _ va _ x y w hh [] vp sb) by done.
  by rewrite !drop_ge by lia.
Qed.

Lemma setViewport_wellFormed (c : Camera.t) (h h' : heap) (va : loc)
    (x y w hh : R) (bound : option R) :
  Camera.wellFormed c h → Camera.foreign c va →
  h !! va = Some [x; y; w; hh] →
  Camera.setViewport c va bound h = Some h' →
  Camera.wellFormed c h'.
Proof.
  intros Hwf Hf Hva. rewrite (setViewport_eq c h va x y w hh) by done.
  intros [= <-]. destruct Hwf as (Hne & vp & sb & Hvp & Lvp & Hsb & Lsb).
  split; [done|].
  eexists _, _. rewrite list_lookup_insert_ne by done.
  rewrite (lookup_store_same h _ vp) by done.
  erewrite lookup_store_same
    by (by rewrite list_lookup_insert_ne by (by apply not_eq_sym)).
  done.
Qed.

Lemma setViewport_stores (c : Camera.t) (h : heap) (va : loc)
    (x y w hh : R) (bound : option R) :
  Camera.wellFormed c h → Camera.foreign c va →
  h !! va = Some [x; y; w; hh] →
  let b := default (Camera.mViewportBound c) bound in
  ∃ h1 : heap,
    Camera.setViewport c va bound h = Some h1 ∧
    h1 !! Camera.mViewport c
    = Some [x + b; y + b; w - 2 * b; hh - 2 * b] ∧
    h1 !! Camera.mScissorBound c = Some [x; y; w; hh].
Proof.
  intros Hwf Hf Hva b.
  pose proof (setViewport_eq c h va x y w hh bound Hwf Hf Hva) as Hset.
  destruct Hwf as (Hne & vp & sb & Hvp & Lvp & Hsb & Lsb).
  eexists. split; [exact Hset|]. split.
  - rewrite list_lookup_insert_ne by done.
    by apply (lookup_store_same h _ vp).
  - apply (lookup_store_same _ _ sb).
    by rewrite list_lookup_insert_ne by (by apply not_eq_sym).
Qed.

(** C5: [setViewport([x, y, w, h], bound)] stores the inset rectangle
    [[x + bound, y + bound, w - 2 bound, h - 2 bound]] as the pixel
    viewport, and [getViewport()] then returns [[x, y, w, h]] in a new
    array: an array no older reference points to, so that a write through
    it changes neither the pixel viewport nor the scissor rectangle of the
    camera, and a later [getViewport()] still returns [[x, y, w, h]]. *)
Theorem setViewport_getViewport_copy (c : Camera.t) (h : heap) (va : loc)
    (x y w hh : R) (bound : option R) :
  Camera.wellFormed c h → Camera.foreign c va →
  h !! va = Some [x; y; w; hh] →
  let b := default (Camera.mViewportBound c) bound in
  ∃ h1 : heap,
    Camera.setViewport c va bound h = Some h1 ∧
    h1 !! Camera.mViewport c
    = Some [x + b; y + b; w - 2 * b; hh - 2 * b] ∧
    h1 !! Camera.mScissorBound c = Some [x; y; w; hh] ∧
    ∃ (out : loc) (h2 : heap),
      Camera.getViewport c h1 = Some (out, h2) ∧
      h2 !! out = Some [x; y; w; hh] ∧
      h1 !! out = None ∧
      (∀ l : loc, l ≠ out → h2 !! l = h1 !! l) ∧
      ∀ (i : nat) (v : R) (h3 : heap),
        store h2 out i v = Some h3 →
        h3 !! Camera.mViewport c
        = Some [x + b; y + b; w - 2 * b; hh - 2 * b] ∧
        h3 !! Camera.mScissorBound c = Some [x; y; w; hh] ∧
        ∃ (out' : loc) (h4 : heap),
          Camera.getViewport c h3 = Some (out', h4) ∧
          h4 !! out' = Some [x; y; w; hh].
Proof.
  intros Hwf Hf Hva b.
  destruct (setViewport_stores c h va x y w hh bound Hwf Hf Hva)
    as (h1 & Hset & H1vp & H1sb).
  fold b in H1vp.
  assert (Lvp1 : (Camera.mViewport c < length h1)%nat)
    by (by eapply lookup_lt_Some).
  assert (Lsb1 : (Camera.mScissorBound c < length h1)%nat)
    by (by eapply lookup_lt_Some).
  exists h1. split; [exact Hset|]. split; [exact H1vp|].
  split; [exact H1sb|].
  exists (length h1), (h1 ++ [[x; y; w; hh]]).
  split; [by apply getViewport_eq with (rest := [])|].
  split; [by apply list_lookup_middle|].
  split; [by apply lookup_ge_None_2|].
  split.
  { intros l Hl. destruct (decide (l < length h1)%nat).
    - by apply lookup_app_l.
    - rewrite !lookup_ge_None_2; [done | lia |].
      rewrite length_app. simpl. lia. }
  intros i v h3 Hstore.
  assert (H3vp : h3 !! Camera.mViewport c
                 = Some [x + b; y + b; w - 2 * b; hh - 2 * b]).
  { rewrite (store_other _ _ _ _ _ _ Hstore) by lia.
    by rewrite lookup_app_l. }
  assert (H3sb : h3 !! Camera.mScissorBound c = Some [x; y; w; hh]).
  { rewrite (store_other _ _ _ _ _ _ Hstore) by lia.
    by rewrite lookup_app_l. }
  split; [exact H3vp|]. split; [exact H3sb|].
  exists (length h3), (h3 ++ [[x; y; w; hh]]).
  split; [by apply getViewport_eq with (rest := [])|].
  by apply list_lookup_middle.
Qed.

Lemma setViewport_getViewport_copy_witness :
  ∃ h1 : heap,
    Camera.setViewport Scenario.camera Scenario.rectangle (Some 40)
      Scenario.store = Some h1 ∧
    h1 !! Camera.mViewport Scenario.camera
    = Some [0 + 40; 0 + 40; 640 - 2 * 40; 480 - 2 * 40] ∧
    ∃ (out : loc) (h2 : heap),
      Camera.getViewport Scenario.camera h1 = Some (out, h2) ∧
      h2 !! out = Some [0; 0; 640; 480].
Proof.
  destruct (setViewport_getViewport_copy Scenario.camera Scenario.store
              Scenario.rectangle 0 0 640 480 (Some 40))
    as (h1 & Hset & Hvp & _ & out & h2 & Hget & Hout & _).
  - split; [simpl; lia|]. eexists _, _. repeat split; reflexivity.
  - split; simpl; unfold Scenario.rectangle; lia.
  - reflexivity.
  - exists h1. split; [exact Hset|]. split; [exact Hvp|].
    exists out, h2. split; [exact Hget | exact Hout].
Defined.

(** ** getWCHeight *)

Lemma getWCHeight_eq (c : Camera.t) (h : heap) (vx vy vw vh : R)
    (rest : list R) :
  h !! Camera.mViewport c = Some (vx :: vy :: vw :: vh :: rest) →
  vw ≠ 0 →
  Camera.getWCHeight c h = Some (Camera.getWCWidth c * (vh / vw)).
Proof.
  intros Hvp Hvw. unfold Camera.getWCHeight.
  rewrite !(load_eq _ _ _ _ Hvp). simpl.
  by rewrite js_div_Some.
Qed.

(** C4, as the code has it: after [setViewport([x, y, w, h], bound)] the
    height of the world window is the width times the ratio of the inset
    pixel viewport, [(h - 2 bound) / (w - 2 bound)]; this is the ratio of
    the rectangle [getViewport()] reports when the bound is zero.  The
    height is computed from the store at each call: whatever the camera
    held before the viewport was set plays no part. *)
Theorem getWCHeight_inset_ratio (c : Camera.t) (h : heap) (va : loc)
    (x y w hh : R) (bound : option R) :
  Camera.wellFormed c h → Camera.foreign c va →
  h !! va = Some [x; y; w; hh] →
  let b := default (Camera.mViewportBound c) bound in
  w - 2 * b ≠ 0 →
  ∃ h1 : heap,
    Camera.setViewport c va bound h = Some h1 ∧
    Camera.getWCHeight c h1
    = Some (Camera.getWCWidth c * ((hh - 2 * b) / (w - 2 * b))) ∧
    (b = 0 →
     Camera.getWCHeight c h1 = Some (Camera.getWCWidth c * (hh / w))).
Proof.
  intros Hwf Hf Hva b Hw.
  destruct (setViewport_stores c h va x y w hh bound Hwf Hf Hva)
    as (h1 & Hset & Hvp & _).
  fold b in Hvp. exists h1. split; [exact Hset|].
  rewrite (getWCHeight_eq c h1 _ _ _ _ [] Hvp Hw).
  split; [reflexivity|].
  intros Hb. do 2 f_equal. rewrite Hb.
  by replace (hh - 2 * 0) with hh by lra; replace (w - 2 * 0) with w by lra.
Qed.

Lemma getWCHeight_inset_ratio_witness :
  ∃ h1 : heap,
    Camera.setViewport Scenario.camera Scenario.rectangle (Some 40)
      Scenario.store = Some h1 ∧
    Camera.getWCHeight Scenario.camera h1
    = Some (20 * ((480 - 2 * 40) / (640 - 2 * 40))).
Proof.
  destruct (getWCHeight_inset_ratio Scenario.camera Scenario.store
              Scenario.rectangle 0 0 640 480 (Some 40))
    as (h1 & Hset & Hh & _).
  - split; [simpl; lia|]. eexists _, _. repeat split; reflexivity.
  - split; simpl; unfold Scenario.rectangle; lia.
  - reflexivity.
  - simpl. lra.
  - exists h1. split; [exact Hset | exact Hh].
Defined.

(** C4, as it is stated, fails: the camera built with the rectangle
    [[0, 0, 640, 480]] and a border of 40 reports that rectangle from
    [getViewport()], whose ratio is 480/640, and yet its world window of
    width 20 is not 20 * 480/640 = 15 high (it is 20 * 400/560). *)
Lemma getWCHeight_not_reported_ratio :
  Camera.new (vec2.mk 0 0) 20 Scenario.rectangle (Some 40) Scenario.store0
  = Some (Scenario.borderCamera, Scenario.borderStore) ∧
  (∃ (out : loc) (h' : heap),
     Camera.getViewport Scenario.borderCamera Scenario.borderStore
     = Some (out, h') ∧
     h' !! out = Some [0; 0; 640; 480]) ∧
  Camera.getWCWidth Scenario.borderCamera = 20 ∧
  ∃ height : R,
    Camera.getWCHeight Scenario.borderCamera Scenario.borderStore
    = Some height ∧
    height ≠ Camera.getWCWidth Scenario.borderCamera * (480 / 640).
Proof.
  split; [reflexivity|]. split.
  { eexists _, _. split.
    - by apply getViewport_eq with (rest := []).
    - reflexivity. }
  split; [reflexivity|].
  eexists. split.
  - eapply getWCHeight_eq with (rest := []); [reflexivity | lra].
  - change (Camera.getWCWidth Scenario.borderCamera) with 20.
    replace (480 - 2 * 40) with 400 by lra.
    replace (640 - 2 * 40) with 560 by lra. lra.
Qed.

(** ** The constructor *)

(** The camera the constructor builds: two new arrays for the pixel
    viewport and the scissor rectangle, a third for the background colour;
    the arrays the store held before are as they were. *)
Lemma new_spec (wcCenter : vec2.t) (wcWidth : R) (va : loc)
    (bound : option R) (h : heap) (x y w hh : R) :
  h !! va = Some [x; y; w; hh] →
  let b := default 0 bound in
  ∃ (c : Camera.t) (h' : heap),
    Camera.new wcCenter wcWidth va bound h = Some (c, h') ∧
    Camera.wellFormed c h' ∧
    h' !! Camera.mViewport c
    = Some [x + b; y + b; w - 2 * b; hh - 2 * b] ∧
    h' !! Camera.mScissorBound c = Some [x; y; w; hh] ∧
    h' !! Camera.mBGColor c = Some [0.8; 0.8; 0.8; 1] ∧
    Camera.getWCCenter c = wcCenter ∧ Camera.getWCWidth c = wcWidth ∧
    Camera.kCameraZ c = 10 ∧ Camera.mCameraShake c = None ∧
    Camera.mViewportBound c = b ∧
    ∀ l : loc, (l < length h)%nat → h' !! l = h !! l.
Proof.
  intros Hva b.
  assert (Lva : (va < length h)%nat) by (by eapply lookup_lt_Some).
  unfold Camera.new, alloc. fold b.
  set (vp := length h). set (h1 := h ++ [[]]).
  set (sb := length h1). set (h2 := h1 ++ [[]]).
  assert (Lh1 : length h1 = S vp)
    by (unfold h1; rewrite length_app; simpl; lia).
  assert (Lh2 : length h2 = S sb)
    by (unfold h2; rewrite length_app; simpl; lia).
  assert (H2va : h2 !! va = Some [x; y; w; hh]).
  { unfold h2, h1. rewrite !lookup_app_l; [done | lia |].
    rewrite length_app. simpl. lia. }
  assert (H2vp : h2 !! vp = Some []).
  { unfold h2. rewrite lookup_app_l by lia. by apply list_lookup_middle. }
  assert (H2sb : h2 !! sb = Some []) by (by apply list_lookup_middle).
  rewrite (setViewportArrays_eq h2 vp sb va b x y w hh [] [] [])
    by (done || lia).
  simpl.
  set (h3 := <[sb := [x; y; w; hh]]>
               (<[vp := [x + b; y + b; w - 2 * b; hh - 2 * b]]> h2)).
  assert (Lh3 : length h3 = S sb) by (unfold h3; by rewrite !length_insert).
  assert (H3vp : h3 !! vp = Some [x + b; y + b; w - 2 * b; hh - 2 * b]).
  { unfold h3. rewrite list_lookup_insert_ne by lia.
    apply list_lookup_insert_eq. lia. }
  assert (H3sb : h3 !! sb = Some [x; y; w; hh]).
  { unfold h3. apply list_lookup_insert_eq. rewrite length_insert. lia. }
  eexists _, _. split; [reflexivity|]. simpl.
  split.
  { split; [simpl; lia|]. simpl. eexists _, _.
    rewrite !lookup_app_l by lia. by rewrite H3vp, H3sb. }
  rewrite !lookup_app_l by lia.
  split; [exact H3vp|]. split; [exact H3sb|].
  split; [by apply list_lookup_middle|].
  repeat (split; [reflexivity|]).
  intros l Hl. rewrite lookup_app_l by lia.
  unfold h3. rewrite !list_lookup_insert_ne by lia.
  unfold h2, h1. rewrite !lookup_app_l; [done | lia |].
  rewrite length_app. simpl. lia.
Qed.

(** The camera of the constructor is ready to draw as soon as its width
    and its inset viewport are positive. *)
Lemma new_valid (wcCenter : vec2.t) (wcWidth : R) (va : loc)
    (bound : option R) (h : heap) (x y w hh : R) :
  h !! va = Some [x; y; w; hh] →
  let b := default 0 bound in
  0 < wcWidth → 0 < w - 2 * b → 0 < hh - 2 * b →
  ∃ (c : Camera.t) (h' : heap),
    Camera.new wcCenter wcWidth va bound h = Some (c, h') ∧
    Camera.valid c h' (w - 2 * b) (hh - 2 * b).
Proof.
  intros Hva b Hw Hvw Hvh.
  destruct (new_spec wcCenter wcWidth va bound h x y w hh Hva)
    as (c & h' & Hnew & _ & Hvp & Hsb & Hbg & _ & HW & Hk & _).
  exists c, h'. split; [exact Hnew|].
  unfold Camera.valid. rewrite HW.
  repeat split; try done.
  - by eexists _, _.
  - by eexists _, _, _, _.
  - by eexists _, _, _, _.
Qed.

(** ** setViewAndCameraMatrix: the graphics surface *)

Lemma setView_eq (c : Camera.t) (h : heap) (log : list gl.call)
    (v0 v1 v2 v3 s0 s1 s2 s3 c0 c1 c2 c3 : R) (rv rs rc : list R) :
  h !! Camera.mViewport c = Some (v0 :: v1 :: v2 :: v3 :: rv) →
  h !! Camera.mScissorBound c = Some (s0 :: s1 :: s2 :: s3 :: rs) →
  h !! Camera.mBGColor c = Some (c0 :: c1 :: c2 :: c3 :: rc) →
  Camera.setView c h log
  = Some (log ++ [gl.viewport v0 v1 v2 v3; gl.scissor s0 s1 s2 s3;
                  gl.clearColor c0 c1 c2 c3; gl.enable gl.SCISSOR_TEST;
                  gl.clear gl.COLOR_BUFFER_BIT;
                  gl.disable gl.SCISSOR_TEST]).
Proof.
  intros Hv Hs Hc. unfold Camera.setView.
  rewrite !(load_eq _ _ _ _ Hv), !(load_eq _ _ _ _ Hs),
    !(load_eq _ _ _ _ Hc). simpl.
  by rewrite <- !app_assoc.
Qed.

Lemma clearsScissored_app (on : bool) (l1 l2 : list gl.call) :
  gl.clearsScissored on (l1 ++ l2)
  = gl.clearsScissored on l1
    && gl.clearsScissored (gl.scissorAfterAll on l1) l2.
Proof.
  revert on. induction l1 as [|c l1 IH]; intros on; simpl; [done|].
  rewrite IH. unfold gl.scissorAfterAll. simpl.
  by rewrite andb_assoc.
Qed.

(** The camera after step B, for a pixel viewport of size [vw] by [vh]:
    the matrix is built from the width of the world window, from its
    height [width * (vh / vw)] and from the effective centre. *)
Lemma setCameraMatrix_eq (c : Camera.t) (h : heap) (vx vy vw vh : R)
    (rest : list R) :
  h !! Camera.mViewport c = Some (vx :: vy :: vw :: vh :: rest) →
  Camera.getWCWidth c ≠ 0 → vw ≠ 0 → vh ≠ 0 → Camera.kCameraZ c ≠ 0 →
  ∃ cache : PerRenderCache.t,
    Camera.setCameraMatrix c h
    = Some (Camera.mk (Camera.mCameraState c) (Camera.mCameraShake c)
              (Camera.mViewport c) (Camera.mViewportBound c)
              (Camera.mScissorBound c) (Camera.kCameraZ c)
              (mat4.translate
                 (mat4.scale mat4.create
                    (vec3.fromValues (2 / Camera.getWCWidth c)
                       (2 / (Camera.getWCWidth c * (vh / vw)))
                       (1 / Camera.kCameraZ c)))
                 (vec3.fromValues (- vec2.x (Camera.effectiveCenter c))
                    (- vec2.y (Camera.effectiveCenter c))
                    (- Camera.kCameraZ c / 2)))
              (Camera.mBGColor c) cache).
Proof.
  intros Hv Hw Hvw Hvh Hk.
  assert (Hh : Camera.getWCWidth c * (vh / vw) ≠ 0).
  { intros H0. apply Rmult_integral in H0 as [H0|H0]; [done|].
    apply Hvh. unfold Rdiv in H0.
    apply Rmult_integral in H0 as [H0|H0]; [done|].
    by apply Rinv_neq_0_compat in H0. }
  unfold Camera.setCameraMatrix.
  rewrite (getWCHeight_eq c h vx vy vw vh rest Hv Hvw).
  rewrite (load_eq _ _ _ _ Hv).
  repeat (rewrite js_div_Some by done; simpl).
  eexists. reflexivity.
Qed.

(** C7: every call of [setViewAndCameraMatrix()] makes six calls on the
    graphics surface, in this order: the pixel viewport with the inset
    rectangle, the scissor with the rectangle as it was given, the clear
    colour with the four numbers of the background colour, then scissor
    test on, clear, scissor test off.  The clear finds the scissor test
    enabled whatever its state was before, the test is off at the end, and
    a sequence of calls in which no clear was made with the test disabled
    stays such a sequence. *)
Theorem setViewAndCameraMatrix_surface_calls (c : Camera.t) (h : heap)
    (log : list gl.call) (x y w hh b cr cg cb ca : R) :
  h !! Camera.mViewport c
  = Some [x + b; y + b; w - 2 * b; hh - 2 * b] →
  h !! Camera.mScissorBound c = Some [x; y; w; hh] →
  h !! Camera.mBGColor c = Some [cr; cg; cb; ca] →
  let calls :=
    [gl.viewport (x + b) (y + b) (w - 2 * b) (hh - 2 * b);
     gl.scissor x y w hh;
     gl.clearColor cr cg cb ca;
     gl.enable gl.SCISSOR_TEST;
     gl.clear gl.COLOR_BUFFER_BIT;
     gl.disable gl.SCISSOR_TEST] in
  Camera.setView c h log = Some (log ++ calls) ∧
  (∀ (c' : Camera.t) (log' : list gl.call),
     Camera.setViewAndCameraMatrix c h log = Some (c', log') →
     log' = log ++ calls) ∧
  (Camera.getWCWidth c ≠ 0 → w - 2 * b ≠ 0 → hh - 2 * b ≠ 0 →
   Camera.kCameraZ c ≠ 0 →
   ∃ c' : Camera.t,
     Camera.setViewAndCameraMatrix c h log = Some (c', log ++ calls)) ∧
  (∀ on : bool,
     gl.clearsScissored on calls = true ∧
     gl.scissorAfterAll on calls = false ∧
     (gl.clearsScissored on log = true →
      gl.clearsScissored on (log ++ calls) = true)).
Proof.
  intros Hv Hs Hc calls.
  pose proof (setView_eq c h log _ _ _ _ _ _ _ _ _ _ _ _ [] [] [] Hv Hs Hc)
    as Hview.
  fold calls in Hview.
  split; [exact Hview|]. split; [|split].
  - intros c' log'. unfold Camera.setViewAndCameraMatrix.
    rewrite Hview. simpl.
    destruct (Camera.setCameraMatrix c h); simpl; [|done].
    by intros [= _ <-].
  - intros Hw Hvw Hvh Hk.
    destruct (setCameraMatrix_eq c h _ _ _ _ [] Hv Hw Hvw Hvh Hk)
      as [cache Hm].
    unfold Camera.setViewAndCameraMatrix. rewrite Hview. simpl.
    rewrite Hm. simpl. eexists. reflexivity.
  - intros on. split; [|split].
    + by destruct on.
    + by destruct on.
    + intros Hlog. rewrite clearsScissored_app, Hlog. simpl.
      by destruct (gl.scissorAfterAll on log).
Qed.

(** The scenario of the specification: the background colour set to
    (0.1, 0.2, 0.3, 1.0), and the call of the clear colour at the next
    frame. *)
Lemma setViewAndCameraMatrix_surface_calls_witness :
  let color := length Scenario.store in
  let store := Scenario.store ++ [[0.1; 0.2; 0.3; 1.0]] in
  let camera := Camera.setBackgroundColor Scenario.camera color in
  ∃ c' : Camera.t,
    Camera.setViewAndCameraMatrix camera store []
    = Some (c',
            [gl.viewport (0 + 0) (0 + 0) (640 - 2 * 0) (480 - 2 * 0);
             gl.scissor 0 0 640 480;
             gl.clearColor 0.1 0.2 0.3 1.0;
             gl.enable gl.SCISSOR_TEST;
             gl.clear gl.COLOR_BUFFER_BIT;
             gl.disable gl.SCISSOR_TEST]).
Proof.
  intros color store camera.
  destruct (setViewAndCameraMatrix_surface_calls camera store [] 0 0 640
              480 0 0.1 0.2 0.3 1.0)
    as (_ & _ & Hrun & _); [reflexivity | reflexivity | reflexivity |].
  apply Hrun; cbn; lra.
Defined.

(** ** setViewAndCameraMatrix: the camera matrix *)

(** What [setViewAndCameraMatrix] returns for a camera ready to draw. *)
Lemma setViewAndCameraMatrix_eq (c : Camera.t) (h : heap)
    (log : list gl.call) (vw vh : R) :
  Camera.valid c h vw vh →
  ∃ (cache : PerRenderCache.t) (log' : list gl.call),
    Camera.setViewAndCameraMatrix c h log
    = Some (Camera.mk (Camera.mCameraState c) (Camera.mCameraShake c)
              (Camera.mViewport c) (Camera.mViewportBound c)
              (Camera.mScissorBound c) (Camera.kCameraZ c)
              (mat4.translate
                 (mat4.scale mat4.create
                    (vec3.fromValues (2 / Camera.getWCWidth c)
                       (2 / (Camera.getWCWidth c * (vh / vw)))
                       (1 / Camera.kCameraZ c)))
                 (vec3.fromValues (- vec2.x (Camera.effectiveCenter c))
                    (- vec2.y (Camera.effectiveCenter c))
                    (- Camera.kCameraZ c / 2)))
              (Camera.mBGColor c) cache, log').
Proof.
  intros (Hw & Hk & Hvw & Hvh & (vx & vy & Hv) & (s0 & s1 & s2 & s3 & Hs)
          & (c0 & c1 & c2 & c3 & Hc)).
  unfold Camera.setViewAndCameraMatrix.
  rewrite (setView_eq c h log _ _ _ _ _ _ _ _ _ _ _ _ [] [] [] Hv Hs Hc).
  simpl.
  destruct (setCameraMatrix_eq c h vx vy vw vh [] Hv) as [cache ->];
    try lra.
  simpl. eexists _, _. reflexivity.
Qed.



(** The depth of the image: the camera matrix sends the plane of depth
    [cameraZ / 2] to depth 0, and a point of depth 0 to depth -1/2. *)
Lemma cameraMatrix_depth (c c' : Camera.t) (h : heap)
    (log log' : list gl.call) (vw vh : R) (p : vec2.t) (z : R) :
  Camera.valid c h vw vh →
  Camera.setViewAndCameraMatrix c h log = Some (c', log') →
  vec3.z (mat4.apply (Camera.getCameraMatrix c')
            (vec3.mk (vec2.x p) (vec2.y p) z))
  = (z - Camera.kCameraZ c / 2) / Camera.kCameraZ c.
Proof.
  intros Hvalid.
  destruct (setViewAndCameraMatrix_eq c h log vw vh Hvalid)
    as (cache & log0 & ->).
  intros [= <- _]. destruct Hvalid as (Hw & Hk & Hvw & Hvh & _).
  unfold Camera.getCameraMatrix, mat4.apply, mat4.translate, mat4.scale,
    mat4.create. simpl.
  field. repeat split; lra.
Qed.

(** C6: [setViewAndCameraMatrix()] builds the camera matrix around the
    centre the shake collaborator gives when there is one, and around the
    stored centre otherwise; the camera state, and with it what
    [getWCCenter()] returns, is the same before and after the call. *)
Theorem setViewAndCameraMatrix_effective_center (c : Camera.t) (h : heap)
    (log : list gl.call) (vw vh : R) :
  Camera.valid c h vw vh →
  ∃ (c' : Camera.t) (log' : list gl.call) (center : vec2.t),
    Camera.setViewAndCameraMatrix c h log = Some (c', log') ∧
    (∀ shake : CameraShake.t,
       Camera.mCameraShake c = Some shake →
       center = CameraShake.getCenter shake) ∧
    (Camera.mCameraShake c = None → center = Camera.getWCCenter c) ∧
    Camera.getCameraMatrix c'
    = mat4.translate
        (mat4.scale mat4.create
           (vec3.fromValues (2 / Camera.getWCWidth c)
              (2 / (Camera.getWCWidth c * (vh / vw)))
              (1 / Camera.kCameraZ c)))
        (vec3.fromValues (- vec2.x center) (- vec2.y center)
           (- Camera.kCameraZ c / 2)) ∧
    mat4.apply2 (Camera.getCameraMatrix c') center = vec2.mk 0 0 ∧
    Camera.mCameraState c' = Camera.mCameraState c ∧
    Camera.getWCCenter c' = Camera.getWCCenter c ∧
    Camera.mCameraShake c' = Camera.mCameraShake c.
Proof.
  intros Hvalid.
  destruct (setViewAndCameraMatrix_eq c h log vw vh Hvalid)
    as (cache & log' & Hrun).
  eexists _, _, (Camera.effectiveCenter c). split; [exact Hrun|].
  split; [|split].
  - intros shake Hshake. unfold Camera.effectiveCenter. by rewrite Hshake.
  - intros Hshake. unfold Camera.effectiveCenter. by rewrite Hshake.
  - split; [reflexivity|]. split; [|done].
    unfold Camera.getCameraMatrix, mat4.apply2, mat4.translate, mat4.scale,
      mat4.create. simpl.
    f_equal; ring.
Qed.

Lemma setViewAndCameraMatrix_effective_center_witness :
  ∃ (c' : Camera.t) (log' : list gl.call),
    Camera.setViewAndCameraMatrix Scenario.shakenCamera Scenario.store []
    = Some (c', log') ∧
    mat4.apply2 (Camera.getCameraMatrix c') (vec2.mk 1 (-1)) = vec2.mk 0 0 ∧
    Camera.getWCCenter c' = vec2.mk 0 0.
Proof.
  destruct (setViewAndCameraMatrix_effective_center Scenario.shakenCamera
              Scenario.store [] (640 - 2 * 0) (480 - 2 * 0))
    as (c' & log' & center & Hrun & Hshake & _ & _ & Horigin & _ & Hc & _).
  - unfold Camera.valid. cbn.
    split; [lra|]. split; [reflexivity|]. split; [lra|]. split; [lra|].
    split; [by eexists _, _|]. split; by eexists _, _, _, _.
  - exists c', log'. split; [exact Hrun|].
    rewrite (Hshake _ eq_refl) in Horigin.
    split; [exact Horigin | exact Hc].
Defined.

(** ** The background colour *)

(** C10: [getBackgroundColor()] returns the reference that
    [setBackgroundColor(c)] stored, not a copy: a write of the caller
    through it is a write to the array the camera reads, and the next
    [setViewAndCameraMatrix()] passes the changed component to
    [gl.clearColor]. *)
Theorem getBackgroundColor_same_array (c : Camera.t) (h : heap)
    (log : list gl.call) (newColor : loc) (cr cg cb ca : R) (i : nat)
    (v : R) :
  Camera.wellFormed c h →
  h !! newColor = Some [cr; cg; cb; ca] →
  (i < 4)%nat →
  let c' := Camera.setBackgroundColor c newColor in
  Camera.getBackgroundColor c' = newColor ∧
  ∃ (h' : heap) (c0 c1 c2 c3 : R) (surface scissor : gl.call),
    store h (Camera.getBackgroundColor c') i v = Some h' ∧
    [c0; c1; c2; c3] = <[i := v]> [cr; cg; cb; ca] ∧
    Camera.setView c' h' log
    = Some (log ++ [surface; scissor; gl.clearColor c0 c1 c2 c3;
                    gl.enable gl.SCISSOR_TEST;
                    gl.clear gl.COLOR_BUFFER_BIT;
                    gl.disable gl.SCISSOR_TEST]) ∧
    ∀ (c'' : Camera.t) (log' : list gl.call),
      Camera.setViewAndCameraMatrix c' h' log = Some (c'', log') →
      log' = log ++ [surface; scissor; gl.clearColor c0 c1 c2 c3;
                     gl.enable gl.SCISSOR_TEST;
                     gl.clear gl.COLOR_BUFFER_BIT;
                     gl.disable gl.SCISSOR_TEST].
Proof.
  intros (Hne & vp & sb & Hvp & Lvp & Hsb & Lsb) Hcol Hi c'.
  split; [reflexivity|].
  set (col := <[i := v]> [cr; cg; cb; ca]).
  assert (Hstore : store h newColor i v = Some (<[newColor := col]> h)).
  { apply store_eq with (a := [cr; cg; cb; ca]); [done|].
    unfold js_set. simpl. by rewrite decide_True by done. }
  assert (Hcol' : <[newColor := col]> h !! newColor = Some col)
    by (by eapply lookup_store_same).
  assert (Lcol : length col = 4%nat) by (unfold col; by rewrite length_insert).
  assert (Hvp' : ∃ a, <[newColor := col]> h !! Camera.mViewport c = Some a
                      ∧ length a = 4%nat).
  { destruct (decide (newColor = Camera.mViewport c)) as [<-|Hn].
    - by exists col.
    - exists vp. by rewrite list_lookup_insert_ne. }
  assert (Hsb' : ∃ a, <[newColor := col]> h !! Camera.mScissorBound c
                      = Some a ∧ length a = 4%nat).
  { destruct (decide (newColor = Camera.mScissorBound c)) as [<-|Hn].
    - by exists col.
    - exists sb. by rewrite list_lookup_insert_ne. }
  destruct Hvp' as ([|v0 [|v1 [|v2 [|v3 [|]]]]] & Hvp' & ?); try done.
  destruct Hsb' as ([|s0 [|s1 [|s2 [|s3 [|]]]]] & Hsb' & ?); try done.
  destruct col as [|c0 [|c1 [|c2 [|c3 [|]]]]] eqn:Ecol; try done.
  pose proof (setView_eq c' (<[newColor := [c0; c1; c2; c3]]> h) log
                _ _ _ _ _ _ _ _ _ _ _ _ [] [] [] Hvp' Hsb' Hcol') as Hview.
  eexists _, c0, c1, c2, c3, _, _.
  split; [exact Hstore|]. split; [done|]. split; [exact Hview|].
  intros c'' log'. unfold Camera.setViewAndCameraMatrix.
  rewrite Hview. simpl.
  destruct (Camera.setCameraMatrix c' _); simpl; [|done].
  by intros [= _ <-].
Qed.

(** The caller sets the colour to the array [[0.1, 0.2, 0.3, 1.0]], then
    writes 0.9 to its first slot: the next frame is cleared with
    (0.9, 0.2, 0.3, 1.0). *)
Lemma getBackgroundColor_same_array_witness :
  let color := length Scenario.store in
  let store1 := Scenario.store ++ [[0.1; 0.2; 0.3; 1.0]] in
  let camera := Camera.setBackgroundColor Scenario.camera color in
  ∃ (h' : heap) (surface scissor : gl.call),
    store store1 (Camera.getBackgroundColor camera) 0 0.9 = Some h' ∧
    Camera.setView camera h' []
    = Some [surface; scissor; gl.clearColor 0.9 0.2 0.3 1.0;
            gl.enable gl.SCISSOR_TEST; gl.clear gl.COLOR_BUFFER_BIT;
            gl.disable gl.SCISSOR_TEST].
Proof.
  intros color store1 camera.
  destruct (getBackgroundColor_same_array Scenario.camera store1 [] color
              0.1 0.2 0.3 1.0 0 0.9)
    as (_ & h' & c0 & c1 & c2 & c3 & surface & scissor & Hstore & Hcol
        & Hview & _).
  - split; [simpl; lia|]. eexists _, _. repeat split; reflexivity.
  - reflexivity.
  - lia.
  - injection Hcol as -> -> -> ->.
    exists h', surface, scissor. split; [exact Hstore | exact Hview].
Defined.

(** ** Collision with the bounds of the world window *)

Lemma scenario_height :
  Camera.getWCHeight Scenario.camera Scenario.store = Some 15.
Proof.
  erewrite getWCHeight_eq with (rest := []); [|reflexivity|lra].
  f_equal. cbn. field.
Qed.

Lemma collideWCBound_eq (c : Camera.t) (h : heap) (aXform : Transform.t)
    (zone wcHeight : R) :
  Camera.getWCHeight c h = Some wcHeight →
  Camera.collideWCBound c h aXform zone
  = Some (BoundingBox.boundCollideStatus
            (BoundingBox.new (Camera.getWCCenter c)
               (zone * Camera.getWCWidth c) (zone * wcHeight))
            (BoundingBox.new (Transform.getPosition aXform)
               (Transform.getWidth aXform) (Transform.getHeight aXform))).
Proof. intros H. unfold Camera.collideWCBound. by rewrite H. Qed.

(** The bits of the status, from the comparisons that set them. *)
Lemma boundCollideStatus_bits (this otherBound : BoundingBox.t) :
  let status := BoundingBox.boundCollideStatus this otherBound in
  let left :=
    Rltb (BoundingBox.minX otherBound) (BoundingBox.minX this) in
  let right :=
    Rgtb (BoundingBox.maxX otherBound) (BoundingBox.maxX this) in
  let bottom :=
    Rltb (BoundingBox.minY otherBound) (BoundingBox.minY this) in
  let top :=
    Rgtb (BoundingBox.maxY otherBound) (BoundingBox.maxY this) in
  Camera.collides status eBoundCollideStatus.eCollideLeft = left ∧
  Camera.collides status eBoundCollideStatus.eCollideRight = right ∧
  Camera.collides status eBoundCollideStatus.eCollideBottom = bottom ∧
  Camera.collides status eBoundCollideStatus.eCollideTop = top ∧
  Z.eqb status eBoundCollideStatus.eInside
  = negb left && negb right && negb bottom && negb top.
Proof.
  intros status left right bottom top.
  subst status. unfold BoundingBox.boundCollideStatus.
  fold left right bottom top.
  by destruct left, right, bottom, top.
Qed.

(** The transform [clampAtBoundary] leaves, from the status. *)
Lemma clampAtBoundary_eq (c : Camera.t) (h : heap) (aXform : Transform.t)
    (zone wcHeight : R) :
  Camera.getWCHeight c h = Some wcHeight →
  let status :=
    BoundingBox.boundCollideStatus
      (BoundingBox.new (Camera.getWCCenter c)
         (zone * Camera.getWCWidth c) (zone * wcHeight))
      (BoundingBox.new (Transform.getPosition aXform)
         (Transform.getWidth aXform) (Transform.getHeight aXform)) in
  let pos := Transform.getPosition aXform in
  let center := Camera.getWCCenter c in
  Camera.clampAtBoundary c h aXform zone
  = Some (status,
          Transform.withPosition aXform
            (vec2.mk
               (if Camera.collides status eBoundCollideStatus.eCollideLeft
                then vec2.x center - zone * Camera.getWCWidth c / 2
                     + Transform.getWidth aXform / 2
                else
                  if Camera.collides status
                       eBoundCollideStatus.eCollideRight
                  then vec2.x center + zone * Camera.getWCWidth c / 2
                       - Transform.getWidth aXform / 2
                  else vec2.x pos)
               (if Camera.collides status
                     eBoundCollideStatus.eCollideBottom
                then vec2.y center - zone * wcHeight / 2
                     + Transform.getHeight aXform / 2
                else
                  if Camera.collides status eBoundCollideStatus.eCollideTop
                  then vec2.y center + zone * wcHeight / 2
                       - Transform.getHeight aXform / 2
                  else vec2.y pos))).
Proof.
  intros H status pos center.
  unfold Camera.clampAtBoundary.
  rewrite (collideWCBound_eq c h aXform zone wcHeight H). fold status.
  simpl. rewrite H. simpl.
  destruct (Z.eqb status eBoundCollideStatus.eInside) eqn:Einside; simpl.
  - apply Z.eqb_eq in Einside. rewrite Einside. simpl.
    subst pos. by destruct aXform as [[px py] sc rot].
  - clearbody status. subst pos. destruct aXform as [[px py] sc rot].
    by destruct (Camera.collides status eBoundCollideStatus.eCollideTop),
      (Camera.collides status eBoundCollideStatus.eCollideBottom),
      (Camera.collides status eBoundCollideStatus.eCollideRight),
      (Camera.collides status eBoundCollideStatus.eCollideLeft).
Qed.

(** Evaluates a collision status whose comparisons are between numbers
    that linear arithmetic can order. *)
Ltac eval_status :=
  unfold BoundingBox.boundCollideStatus, Rgtb, BoundingBox.minX,
    BoundingBox.maxX, BoundingBox.minY, BoundingBox.maxY,
    BoundingBox.new;
  cbn;
  repeat first [rewrite Rltb_lt by lra | rewrite Rltb_nlt by lra];
  reflexivity.

(** Evaluates [clampAtBoundary] where the height of the world window is
    [H] and the status is the number [s]. *)
Ltac eval_clamp H s :=
  rewrite (clampAtBoundary_eq _ _ _ _ _ H);
  match goal with
  | |- context [BoundingBox.boundCollideStatus ?a ?b] =>
      replace (BoundingBox.boundCollideStatus a b) with s
        by (symmetry; eval_status)
  end;
  reflexivity.

Example hero_clamped :
  Camera.clampAtBoundary Scenario.camera Scenario.store Scenario.hero 1
  = Some (eBoundCollideStatus.eCollideRight,
          Transform.withPosition Scenario.hero
            (vec2.mk (0 + 1 * 20 / 2 - 2 / 2) 0)).
Proof. eval_clamp scenario_height eBoundCollideStatus.eCollideRight. Qed.

Example tower_clamped :
  Camera.clampAtBoundary Scenario.camera Scenario.store Scenario.tower 1
  = Some (Z.lor eBoundCollideStatus.eCollideTop
            eBoundCollideStatus.eCollideBottom,
          Transform.withPosition Scenario.tower
            (vec2.mk 0 (0 - 1 * 15 / 2 + 20 / 2))).
Proof.
  eval_clamp scenario_height
    (Z.lor eBoundCollideStatus.eCollideTop
       eBoundCollideStatus.eCollideBottom).
Qed.


(** C2, as the code has it: [clampAtBoundary] returns the status that
    [collideWCBound] computes for the object as it was before the call,
    and writes the position edge after edge, in the order top, bottom,
    right, left.  An axis with one edge crossed gets the position that puts
    the object on that edge; on an axis with both edges crossed the later
    write stands (bottom, left); an axis with no edge crossed keeps its
    coordinate.  The size and the rotation of the object are not
    written. *)
Theorem clampAtBoundary_edges (c : Camera.t) (h : heap)
    (aXform : Transform.t) (zone wcHeight : R) :
  Camera.getWCHeight c h = Some wcHeight →
  let center := Camera.getWCCenter c in
  let wcWidth := Camera.getWCWidth c in
  let pos := Transform.getPosition aXform in
  let width := Transform.getWidth aXform in
  let height := Transform.getHeight aXform in
  ∃ (status : Z) (clamped : Transform.t),
    Camera.collideWCBound c h aXform zone = Some status ∧
    Camera.clampAtBoundary c h aXform zone = Some (status, clamped) ∧
    Transform.getSize clamped = Transform.getSize aXform ∧
    Transform.getRotationInRad clamped = Transform.getRotationInRad aXform ∧
    let pos' := Transform.getPosition clamped in
    let top := Camera.collides status eBoundCollideStatus.eCollideTop in
    let bottom :=
      Camera.collides status eBoundCollideStatus.eCollideBottom in
    let right := Camera.collides status eBoundCollideStatus.eCollideRight in
    let left := Camera.collides status eBoundCollideStatus.eCollideLeft in
    (top = true → bottom = false →
     vec2.y pos' = vec2.y center + zone * wcHeight / 2 - height / 2) ∧
    (bottom = true →
     vec2.y pos' = vec2.y center - zone * wcHeight / 2 + height / 2) ∧
    (top = false → bottom = false → vec2.y pos' = vec2.y pos) ∧
    (right = true → left = false →
     vec2.x pos' = vec2.x center + zone * wcWidth / 2 - width / 2) ∧
    (left = true →
     vec2.x pos' = vec2.x center - zone * wcWidth / 2 + width / 2) ∧
    (right = false → left = false → vec2.x pos' = vec2.x pos).
Proof.
  intros H center wcWidth pos width height.
  eexists _, _.
  split; [exact (collideWCBound_eq c h aXform zone wcHeight H)|].
  split; [exact (clampAtBoundary_eq c h aXform zone wcHeight H)|].
  split; [reflexivity|]. split; [reflexivity|].
  simpl. repeat split.
  - by intros -> ->.
  - by intros ->.
  - by intros -> ->.
  - by intros -> ->.
  - by intros ->.
  - by intros -> ->.
Qed.

(** The scenario of the specification: the world window is 20 by 15
    around (0, 0); the object of size 2 by 2 at (11, 0) crosses the right
    edge and is moved to x = 9. *)
Lemma clampAtBoundary_edges_witness :
  ∃ clamped : Transform.t,
    Camera.collideWCBound Scenario.camera Scenario.store Scenario.hero 1
    = Some eBoundCollideStatus.eCollideRight ∧
    Camera.clampAtBoundary Scenario.camera Scenario.store Scenario.hero 1
    = Some (eBoundCollideStatus.eCollideRight, clamped) ∧
    Transform.getPosition clamped = vec2.mk 9 0.
Proof.
  destruct (clampAtBoundary_edges Scenario.camera Scenario.store
              Scenario.hero 1 15 scenario_height)
    as (status & clamped & Hstatus & Hclamp & _ & _ & _ & _ & Hy & Hright
        & _).
  rewrite hero_clamped in Hclamp. injection Hclamp as <- <-.
  eexists. split; [exact Hstatus|]. split; [exact hero_clamped|].
  cbn. f_equal. lra.
Defined.

(** C2, as it is stated, fails for an object that crosses two opposite
    edges: the object of size 2 by 20 at (0, 0) crosses the top and the
    bottom of the world window, which is 15 high, and after the call its
    position is not the one that puts it on the top edge. *)
Lemma clampAtBoundary_opposite_edges :
  ∃ (status : Z) (clamped : Transform.t),
    Camera.getWCHeight Scenario.camera Scenario.store = Some 15 ∧
    Camera.clampAtBoundary Scenario.camera Scenario.store Scenario.tower 1
    = Some (status, clamped) ∧
    Camera.collides status eBoundCollideStatus.eCollideTop = true ∧
    vec2.y (Transform.getPosition clamped)
    ≠ vec2.y (Camera.getWCCenter Scenario.camera) + 1 * 15 / 2
      - Transform.getHeight Scenario.tower / 2.
Proof.
  eexists _, _. split; [exact scenario_height|].
  split; [exact tower_clamped|].
  split; [reflexivity|]. cbn. lra.
Qed.

(** One axis of the clamp: [lo] is the lower edge of the zone and [span]
    its extent, [p] the coordinate of the object and [size] its extent;
    [low] and [high] are the coordinates that put the object on the lower
    and on the upper edge.  Once the coordinate is clamped, an object that
    is not larger than the zone crosses neither edge. *)
Lemma clamped_axis_inside (lo span p size low high : R) :
  size <= span →
  low - size / 2 = lo →
  high - size / 2 + size = lo + span →
  let clamped :=
    if Rltb (p - size / 2) lo then low
    else if Rgtb (p - size / 2 + size) (lo + span) then high else p in
  Rltb (clamped - size / 2) lo = false ∧
  Rgtb (clamped - size / 2 + size) (lo + span) = false.
Proof.
  intros Hsize Hlow Hhigh clamped. subst clamped. unfold Rgtb.
  destruct (Rltb (p - size / 2) lo) eqn:Elow.
  - split; apply Rltb_nlt; lra.
  - apply Rltb_false in Elow.
    destruct (Rltb (lo + span) (p - size / 2 + size)) eqn:Ehigh.
    + split; apply Rltb_nlt; lra.
    + apply Rltb_false in Ehigh. split; apply Rltb_nlt; lra.
Qed.

(** In exact arithmetic, for an object that is not larger than the zone
    (its width is at most [zone * wcWidth] and its height at most
    [zone * wcHeight]), a second call of [clampAtBoundary] finds the
    object inside and leaves it as the first call left it. *)
Lemma clampAtBoundary_fits_exact (c : Camera.t) (h : heap)
    (aXform : Transform.t) (zone wcHeight : R) :
  Camera.getWCHeight c h = Some wcHeight →
  Transform.getWidth aXform <= zone * Camera.getWCWidth c →
  Transform.getHeight aXform <= zone * wcHeight →
  ∃ (status status' : Z) (clamped : Transform.t),
    Camera.clampAtBoundary c h aXform zone = Some (status, clamped) ∧
    Camera.clampAtBoundary c h clamped zone = Some (status', clamped).
Proof.
  intros H Hw Hh. eexists _, eBoundCollideStatus.eInside, _.
  split; [exact (clampAtBoundary_eq c h aXform zone wcHeight H)|].
  rewrite (clampAtBoundary_eq _ _ _ _ _ H).
  destruct aXform as [[px py] [ow oh] rot].
  destruct (Camera.getWCCenter c) as [cx cy].
  generalize dependent (Camera.getWCWidth c). intros wcWidth Hw.
  unfold Transform.getWidth, Transform.getHeight in Hw, Hh.
  simpl in Hw, Hh.
  match goal with
  | |- context [BoundingBox.boundCollideStatus ?a ?b] =>
      lazymatch b with
      | context [BoundingBox.boundCollideStatus _ _] => fail
      | _ => idtac
      end;
      destruct (boundCollideStatus_bits a b) as (-> & -> & -> & -> & _)
  end.
  match goal with
  | |- context [BoundingBox.boundCollideStatus ?a ?b] =>
      destruct (boundCollideStatus_bits a b) as (-> & -> & -> & -> & Hin)
  end.
  unfold BoundingBox.minX, BoundingBox.maxX, BoundingBox.minY,
    BoundingBox.maxY, BoundingBox.new, Transform.withPosition,
    Transform.getPosition, Transform.getWidth, Transform.getHeight in *.
  simpl in *.
  destruct (clamped_axis_inside (cx - zone * wcWidth / 2) (zone * wcWidth)
              px ow (cx - zone * wcWidth / 2 + ow / 2)
              (cx + zone * wcWidth / 2 - ow / 2))
    as [Hl Hr]; [lra | lra | lra |].
  destruct (clamped_axis_inside (cy - zone * wcHeight / 2) (zone * wcHeight)
              py oh (cy - zone * wcHeight / 2 + oh / 2)
              (cy + zone * wcHeight / 2 - oh / 2))
    as [Hb Ht]; [lra | lra | lra |].
  rewrite Hl, Hr, Hb, Ht in *. simpl in Hin.
  apply Z.eqb_eq in Hin. by rewrite Hin.
Qed.

(** ** clampAtBoundary with rounding *)







(** On the doubles of the machine an object that is exactly as wide as
    the zone is not left alone by the second call: the first call finds
    the right edge crossed and writes x = -1.8000000000000003, where the
    left edge of the object is one unit in the last place beyond the left
    edge of the zone; the second call finds the left edge crossed and
    writes x = -1.7999999999999998. *)
Example clampAtBoundary_fit_moves :
  let '(status1, once) :=
    binary64.clampAtBoundary Scenario64.narrowCamera Scenario64.plank
      PrimFloat.one in
  let '(status2, twice) :=
    binary64.clampAtBoundary Scenario64.narrowCamera once PrimFloat.one in
  binary64.width Scenario64.plank
  = PrimFloat.mul PrimFloat.one
      (binary64.wcWidth Scenario64.narrowCamera) ∧
  status1 = eBoundCollideStatus.eCollideRight ∧
  status2 = eBoundCollideStatus.eCollideLeft ∧
  Camera.lastClampX status2 ≠ None ∧
  Camera.lastClampX status2 ≠ Camera.lastClampX status1 ∧
  binary64.x (binary64.position once) ≠ binary64.x (binary64.position twice).
Proof. vm_compute. repeat split; discriminate. Qed.


(** ** Game objects *)

(** C8: when the renderable of either game object has no method
    [pixelTouches], [GameObject.pixelTouches] answers false and calls
    neither [setColorArray] nor the per-pixel test, on either
    renderable. *)
Theorem pixelTouches_without_capability
    (texelsTouch : Renderable.t → Renderable.t → vec2.t → bool)
    (this otherObj : GameObject.t) (wcTouchPos : vec2.t) :
  Renderable.hasPixelTouches (GameObject.getRenderable this) = false
  ∨ Renderable.hasPixelTouches (GameObject.getRenderable otherObj) = false →
  GameObject.pixelTouches texelsTouch this otherObj wcTouchPos = (false, []).
Proof.
  intros Hno. unfold GameObject.pixelTouches.
  destruct Hno as [-> | ->]; [done|]. by rewrite andb_false_r.
Qed.

Lemma pixelTouches_without_capability_witness :
  GameObject.pixelTouches (λ _ _ _, true) Scenario.spriteObject
    Scenario.squareObject (vec2.mk 0 0) = (false, []).
Proof.
  apply (pixelTouches_without_capability (λ _ _ _, true)
           Scenario.spriteObject Scenario.squareObject (vec2.mk 0 0)).
  right. reflexivity.
Defined.

Lemma nonzero_squared_length (f : vec2.t) :
  f ≠ vec2.mk 0 0 → 0 < vec2.x f * vec2.x f + vec2.y f * vec2.y f.
Proof.
  destruct f as [x y]. simpl. intros Hf.
  destruct (Req_dec_T x 0) as [-> | Hx].
  - destruct (Req_dec_T y 0) as [-> | Hy]; [done | nra].
  - nra.
Qed.

(** What [vec2.normalize] stores for a vector that is not zero. *)
Lemma normalize_nonzero (out f : vec2.t) :
  f ≠ vec2.mk 0 0 →
  vec2.normalize out f
  = vec2.mk (vec2.x f * (1 / vec2.length f))
      (vec2.y f * (1 / vec2.length f)).
Proof.
  intros Hf. apply nonzero_squared_length in Hf.
  unfold vec2.normalize, Rgtb. by rewrite Rltb_lt.
Qed.

Lemma normalize_unit (out f : vec2.t) :
  f ≠ vec2.mk 0 0 → vec2.length (vec2.normalize out f) = 1.
Proof.
  intros Hf. rewrite normalize_nonzero by done.
  apply nonzero_squared_length in Hf.
  unfold vec2.length. simpl.
  set (len := vec2.x f * vec2.x f + vec2.y f * vec2.y f) in *.
  pose proof (sqrt_lt_R0 len Hf) as Hs.
  pose proof (sqrt_sqrt len (Rlt_le _ _ Hf)) as Hss.
  transitivity (sqrt 1); [f_equal | apply sqrt_1].
  transitivity (len * (1 / sqrt len) * (1 / sqrt len));
    [unfold len; ring|].
  rewrite <- Hss at 1. field. lra.
Qed.

(** ** The front direction, with rounding *)

(** Exact arithmetic is an instance: with no rounding and release 2 of
    gl-matrix, [rounded.normalize] is [vec2.normalize]. *)
Lemma rounded_normalize_exact (out a : vec2.t) :
  rounded.normalize Some Some rounded.gl_matrix_2 out a
  = Some (vec2.normalize out a).
Proof.
  unfold rounded.normalize, vec2.normalize, rounded.mul, rounded.add,
    rounded.sqrt, rounded.div.
  simpl.
  set (len := vec2.x a * vec2.x a + vec2.y a * vec2.y a).
  destruct (Rgtb len 0) eqn:Hlen; [|done].
  apply Rltb_true in Hlen.
  rewrite Rltb_nlt by lra. simpl.
  pose proof (sqrt_lt_R0 len Hlen) as Hroot.
  by destruct (Req_dec_T (sqrt len) 0) as [Hz | _]; [lra|].
Qed.

Lemma Rabs_between (a b : R) : Rabs a <= b → - b <= a <= b.
Proof. unfold Rabs. destruct (Rcase_abs a); lra. Qed.

Lemma sqrt_le_of_sq (a z : R) : 0 <= a → z <= a * a → sqrt z <= a.
Proof.
  intros Ha Hz. rewrite <- (sqrt_square a Ha). by apply sqrt_le_1_alt.
Qed.

Lemma sqrt_ge_of_sq (a z : R) : 0 <= a → a * a <= z → a <= sqrt z.
Proof.
  intros Ha Hz. rewrite <- (sqrt_square a Ha) at 1. by apply sqrt_le_1_alt.
Qed.

(** One rounding, of an exact result of magnitude at most [B]. *)
Lemma accurate_step (r : R → option R) (u eta huge t B : R) :
  rounded.accurate r u eta huge → 0 <= u → Rabs t <= B → B <= huge →
  ∃ v : R, r t = Some v ∧ t - (u * B + eta) <= v <= t + (u * B + eta).
Proof.
  intros Hr Hu Ht HB. destruct (Hr t) as (v & Hv & Ev); [lra|].
  exists v. split; [done|].
  apply Rabs_between in Ev.
  assert (u * Rabs t <= u * B) by (apply Rmult_le_compat_l; lra).
  lra.
Qed.

(** The squared length, as [vec2.normalize] computes it. *)
Lemma squared_length_accurate (rnd : R → option R) (u eta huge lo hi x y : R) :
  rounded.accurate rnd u eta huge →
  0 <= u <= 1 / 100 → 0 <= eta → 0 < lo → 1 <= hi →
  eta <= u * lo → 4 * hi <= huge →
  lo <= x * x + y * y <= hi →
  let S := x * x + y * y in
  ∃ xx yy len : R,
    rounded.mul rnd x x = Some xx ∧ rounded.mul rnd y y = Some yy ∧
    rounded.add rnd xx yy = Some len ∧
    S - 6 * (u * S) <= len <= S + 6 * (u * S).
Proof.
  intros Hr Hu Heta Hlo Hhi Hel Hhuge HS S. fold S in HS.
  assert (Hxx : 0 <= x * x) by nra.
  assert (Hyy : 0 <= y * y) by nra.
  set (A := u * S).
  assert (HA : 0 <= A) by (unfold A; apply Rmult_le_pos; lra).
  assert (HAS : A <= S / 100).
  { unfold A. apply Rle_trans with (1 / 100 * S); [|lra].
    apply Rmult_le_compat_r; lra. }
  assert (HeA : eta <= A).
  { apply Rle_trans with (u * lo); [done|].
    unfold A. apply Rmult_le_compat_l; lra. }
  assert (HuA : u * A <= A / 100).
  { apply Rle_trans with (1 / 100 * A); [|lra].
    apply Rmult_le_compat_r; lra. }
  assert (Huxx : u * (x * x) + u * (y * y) = A) by (unfold A, S; ring).
  destruct (accurate_step rnd u eta huge (x * x) (x * x) Hr)
    as (xx & Exx & Bxx); [lra | rewrite Rabs_pos_eq; lra | unfold S in *; lra |].
  destruct (accurate_step rnd u eta huge (y * y) (y * y) Hr)
    as (yy & Eyy & Byy); [lra | rewrite Rabs_pos_eq; lra | unfold S in *; lra |].
  assert (Bt : S - 3 * A <= xx + yy <= S + 3 * A) by (unfold S in *; lra).
  destruct (accurate_step rnd u eta huge (xx + yy) (S + 3 * A) Hr)
    as (len & Elen & Blen); [lra | rewrite Rabs_pos_eq; lra | lra |].
  exists xx, yy, len. repeat split; try done.
  - replace (u * (S + 3 * A)) with (A + 3 * (u * A)) in Blen
      by (unfold A; ring).
    fold A. lra.
  - replace (u * (S + 3 * A)) with (A + 3 * (u * A)) in Blen
      by (unfold A; ring).
    fold A. lra.
Qed.

(** The factor [1 / Math.sqrt(len)], as [vec2.normalize] computes it. *)
Lemma inverse_root_accurate (rnd : R → option R)
    (u eta huge lo hi S len : R) :
  rounded.accurate rnd u eta huge →
  0 <= u <= 1 / 100 → 0 <= eta → 0 < lo <= 1 → 1 <= hi →
  eta <= u * lo → eta * hi <= u → 4 * hi <= huge → 2 <= lo * huge →
  lo <= S <= hi →
  S - 6 * (u * S) <= len <= S + 6 * (u * S) →
  let w := 1 / sqrt S in
  ∃ root l : R,
    rounded.sqrt rnd len = Some root ∧ rounded.div rnd 1 root = Some l ∧
    w - 13 * (u * w) <= l <= w + 13 * (u * w).
Proof.
  intros Hr Hu Heta Hlo Hhi Hel Heh Hhuge Hlh HS Hlen w.
  set (q := sqrt S).
  assert (Hqq : q * q = S) by (apply sqrt_sqrt; lra).
  assert (Hq : 0 < q) by (apply sqrt_lt_R0; lra).
  assert (Hqlo : lo <= q) by (apply sqrt_ge_of_sq; nra).
  assert (Hqhi : q <= hi) by (apply sqrt_le_of_sq; nra).
  set (A := u * S) in *.
  assert (HA : 0 <= A) by (unfold A; apply Rmult_le_pos; lra).
  assert (HAS : A <= S / 100).
  { unfold A. apply Rle_trans with (1 / 100 * S); [|lra].
    apply Rmult_le_compat_r; lra. }
  assert (HuA : u * A <= A / 100).
  { apply Rle_trans with (1 / 100 * A); [|lra].
    apply Rmult_le_compat_r; lra. }
  set (Q := u * q).
  assert (HQ : 0 <= Q) by (unfold Q; apply Rmult_le_pos; lra).
  assert (HQq : Q <= q / 100).
  { unfold Q. apply Rle_trans with (1 / 100 * q); [|lra].
    apply Rmult_le_compat_r; lra. }
  assert (HuQ : u * Q <= Q / 100).
  { apply Rle_trans with (1 / 100 * Q); [|lra].
    apply Rmult_le_compat_r; lra. }
  assert (HQQ : Q * Q = u * A) by (unfold Q, A; rewrite <- Hqq; ring).
  assert (HqQ : q * Q = A) by (unfold Q, A; rewrite <- Hqq; ring).
  assert (HeQ : eta <= Q).
  { apply Rle_trans with (u * lo); [done|].
    unfold Q. apply Rmult_le_compat_l; lra. }
  (* the square root *)
  assert (Hs1 : sqrt len <= q + 3 * Q).
  { apply sqrt_le_of_sq; [lra|].
    replace ((q + 3 * Q) * (q + 3 * Q))
      with (q * q + 6 * (q * Q) + 9 * (Q * Q)) by ring.
    rewrite Hqq, HqQ, HQQ.
    assert (0 <= u * A) by (apply Rmult_le_pos; lra). lra. }
  assert (Hs2 : q - 6 * Q <= sqrt len).
  { apply sqrt_ge_of_sq; [lra|].
    replace ((q - 6 * Q) * (q - 6 * Q))
      with (q * q - 12 * (q * Q) + 36 * (Q * Q)) by ring.
    rewrite Hqq, HqQ, HQQ. lra. }
  unfold rounded.sqrt. rewrite Rltb_nlt by lra.
  destruct (accurate_step rnd u eta huge (sqrt len) (q + 3 * Q) Hr)
    as (root & Eroot & Broot);
    [lra | rewrite Rabs_pos_eq; lra | lra |].
  replace (u * (q + 3 * Q)) with (Q + 3 * (u * Q)) in Broot
    by (unfold Q; ring).
  assert (Hroot : q - 9 * Q <= root <= q + 9 * Q) by lra.
  assert (Hroot0 : 0 < root) by lra.
  (* the inverse *)
  assert (Hw : 0 < w) by (unfold w; fold q; apply Rdiv_lt_0_compat; lra).
  assert (Hqw : q * w = 1) by (unfold w; fold q; field; lra).
  set (W := u * w).
  assert (HW : 0 <= W) by (unfold W; apply Rmult_le_pos; lra).
  assert (HWw : W <= w / 100).
  { unfold W. apply Rle_trans with (1 / 100 * w); [|lra].
    apply Rmult_le_compat_r; lra. }
  assert (HuW : u * W <= W / 100).
  { apply Rle_trans with (1 / 100 * W); [|lra].
    apply Rmult_le_compat_r; lra. }
  assert (HqW : q * W = u) by (unfold W; rewrite <- (Rmult_1_r u) at 2;
    rewrite <- Hqw; ring).
  assert (HQw : Q * w = u) by (unfold Q; rewrite <- (Rmult_1_r u) at 2;
    rewrite <- Hqw; ring).
  assert (HQW : Q * W = u * u)
    by (unfold Q, W; transitivity (u * u * (q * w)); [ring|rewrite Hqw; ring]).
  assert (Huu : u * u <= u / 100).
  { apply Rle_trans with (1 / 100 * u); [|lra].
    apply Rmult_le_compat_r; lra. }
  assert (Huu0 : 0 <= u * u) by (apply Rmult_le_pos; lra).
  assert (Hi1 : 1 / root <= w + 10 * W).
  { apply Rmult_le_reg_r with root; [done|].
    replace (1 / root * root) with 1 by (field; lra).
    apply Rle_trans with ((w + 10 * W) * (q - 9 * Q));
      [|apply Rmult_le_compat_l; lra].
    replace ((w + 10 * W) * (q - 9 * Q))
      with (q * w + 10 * (q * W) - 9 * (Q * w) - 90 * (Q * W)) by ring.
    rewrite Hqw, HqW, HQw, HQW. lra. }
  assert (Hi2 : w - 9 * W <= 1 / root).
  { apply Rmult_le_reg_r with root; [done|].
    replace (1 / root * root) with 1 by (field; lra).
    apply Rle_trans with ((w - 9 * W) * (q + 9 * Q));
      [apply Rmult_le_compat_l; lra|].
    replace ((w - 9 * W) * (q + 9 * Q))
      with (q * w - 9 * (q * W) + 9 * (Q * w) - 81 * (Q * W)) by ring.
    rewrite Hqw, HqW, HQw, HQW. lra. }
  assert (Hwlo : w * lo <= 1).
  { rewrite <- Hqw, (Rmult_comm q w). apply Rmult_le_compat_l; lra. }
  assert (Hwhuge : w + 10 * W <= huge).
  { apply Rmult_le_reg_r with lo; [lra|].
    apply Rle_trans with 2; [|lra].
    assert (W * lo <= w * lo / 100).
    { replace (w * lo / 100) with (w / 100 * lo) by lra.
      apply Rmult_le_compat_r; lra. }
    lra. }
  assert (HeW : eta <= W).
  { replace eta with (eta * (q * w)) by (rewrite Hqw; ring).
    unfold W. replace (eta * (q * w)) with (eta * q * w) by ring.
    apply Rmult_le_compat_r; [lra|].
    apply Rle_trans with (eta * hi); [|done].
    apply Rmult_le_compat_l; lra. }
  destruct (accurate_step rnd u eta huge (1 / root) (w + 10 * W) Hr)
    as (l & El & Bl);
    [lra | rewrite Rabs_pos_eq; lra | lra |].
  replace (u * (w + 10 * W)) with (W + 10 * (u * W)) in Bl
    by (unfold W; ring).
  exists root, l. split; [done|]. split.
  { unfold rounded.div. by destruct (Req_dec_T root 0) as [Hz | _]; [lra|]. }
  fold W. lra.
Qed.

(** One component of the result of [vec2.normalize]: the product with the
    factor, and the number the array then holds. *)
Lemma component_accurate (rnd toArray : R → option R)
    (u eta huge u' eta' huge' x q w l : R) :
  rounded.accurate rnd u eta huge →
  rounded.accurate toArray u' eta' huge' →
  0 <= u <= 1 / 100 → 0 <= eta <= u → 0 <= u' → 0 <= eta' →
  2 <= huge → 2 <= huge' →
  0 < q → q * w = 1 → Rabs x <= q →
  w - 13 * (u * w) <= l <= w + 13 * (u * w) →
  ∃ p o : R,
    rounded.mul rnd x l = Some p ∧ toArray p = Some o ∧
    Rabs (o - x * w) <= 16 * u + 2 * u' + eta'.
Proof.
  intros Hr Ha Hu Heta Hu' Heta' Hhuge Hhuge' Hq Hqw Hx Hl.
  assert (Hw : 0 < w).
  { destruct (Rle_or_lt w 0) as [Hneg|]; [|done].
    assert (q * w <= 0) by nra. lra. }
  assert (Hc : Rabs (x * w) <= 1).
  { rewrite Rabs_mult, (Rabs_pos_eq w) by lra. rewrite <- Hqw.
    apply Rmult_le_compat_r; lra. }
  assert (Hd : Rabs (x * l - x * w) <= 13 * u).
  { replace (x * l - x * w) with (x * (l - w)) by ring.
    rewrite Rabs_mult.
    apply Rle_trans with (q * (13 * (u * w))).
    - apply Rmult_le_compat; [apply Rabs_pos | apply Rabs_pos | done |].
      apply Rabs_le. lra.
    - replace (q * (13 * (u * w))) with (13 * u * (q * w)) by ring.
      rewrite Hqw. lra. }
  apply Rabs_between in Hc. apply Rabs_between in Hd.
  destruct (accurate_step rnd u eta huge (x * l) 2 Hr)
    as (p & Ep & Bp); [lra | apply Rabs_le; lra | lra |].
  destruct (accurate_step toArray u' eta' huge' p 2 Ha)
    as (o & Eo & Bo); [lra | apply Rabs_le; lra | lra |].
  exists p, o. split; [done|]. split; [done|].
  apply Rabs_le. lra.
Qed.

(** A vector close to a vector of length 1 has a length close to 1. *)
Lemma near_unit_length (cx cy o0 o1 E : R) :
  cx * cx + cy * cy = 1 →
  Rabs (o0 - cx) <= E → Rabs (o1 - cy) <= E → E <= 1 / 4 →
  Rabs (vec2.length (vec2.mk o0 o1) - 1) <= 4 * E.
Proof.
  intros Hc H0 H1 HE.
  assert (HE0 : 0 <= E) by (pose proof (Rabs_pos (o0 - cx)); lra).
  apply Rabs_between in H0. apply Rabs_between in H1.
  set (d0 := o0 - cx) in *. set (d1 := o1 - cy) in *.
  assert (Hcx : -1 <= cx <= 1) by nra.
  assert (Hcy : -1 <= cy <= 1) by nra.
  assert (Hp0 : - E <= cx * d0 <= E) by nra.
  assert (Hp1 : - E <= cy * d1 <= E) by nra.
  assert (Hs0 : 0 <= d0 * d0 <= E * E) by nra.
  assert (Hs1 : 0 <= d1 * d1 <= E * E) by nra.
  assert (HN : o0 * o0 + o1 * o1
               = 1 + 2 * (cx * d0) + 2 * (cy * d1) + d0 * d0 + d1 * d1).
  { rewrite <- Hc. unfold d0, d1. ring. }
  unfold vec2.length. simpl. rewrite HN.
  assert (HEE : 0 <= E * E) by nra.
  apply Rabs_le. split.
  - assert (1 - 4 * E <= sqrt (1 + 2 * (cx * d0) + 2 * (cy * d1)
                                + d0 * d0 + d1 * d1)); [|lra].
    apply sqrt_ge_of_sq; [lra|]. nra.
  - assert (sqrt (1 + 2 * (cx * d0) + 2 * (cy * d1) + d0 * d0 + d1 * d1)
            <= 1 + 2 * E); [|lra].
    apply sqrt_le_of_sq; [lra|]. nra.
Qed.

(** What [vec2.normalize] stores for a vector whose squared length is in
    the safe range: each component is within [16 u + 2 u' + eta'] of the
    component of the exact unit vector, and the length is within four
    times that of 1. *)
Lemma normalize_accurate (rnd toArray : R → option R)
    (u eta huge u' eta' huge' lo hi : R) (rel : rounded.release)
    (out f : vec2.t) :
  rounded.accurate rnd u eta huge →
  rounded.accurate toArray u' eta' huge' →
  rounded.safeRange u eta huge u' eta' huge' lo hi →
  lo <= vec2.x f * vec2.x f + vec2.y f * vec2.y f <= hi →
  let E := 16 * u + 2 * u' + eta' in
  ∃ d : vec2.t,
    rounded.normalize rnd toArray rel out f = Some d ∧
    Rabs (vec2.x d - vec2.x f * (1 / vec2.length f)) <= E ∧
    Rabs (vec2.y d - vec2.y f * (1 / vec2.length f)) <= E ∧
    Rabs (vec2.length d - 1) <= 4 * E.
Proof.
  intros Hr Ha (Hu & Heta & Hu' & Heta' & Hhuge' & Hlo & Hhi & Hel & Heh
                & Hhuge & Hlh) HS E.
  destruct f as [x y]. unfold vec2.length. simpl in *.
  set (S := x * x + y * y) in *.
  destruct (squared_length_accurate rnd u eta huge lo hi x y)
    as (xx & yy & len & Exx & Eyy & Elen & Blen); try done; try lra.
  fold S in Blen.
  destruct (inverse_root_accurate rnd u eta huge lo hi S len)
    as (root & l & Eroot & El & Bl); try done.
  set (q := sqrt S) in *. set (w := 1 / q) in *.
  assert (Hq : 0 < q) by (apply sqrt_lt_R0; lra).
  assert (Hqq : q * q = S) by (apply sqrt_sqrt; lra).
  assert (Hqw : q * w = 1) by (unfold w; field; lra).
  assert (Hue : eta <= u).
  { apply Rle_trans with (u * lo); [done|].
    rewrite <- (Rmult_1_r u) at 2. apply Rmult_le_compat_l; lra. }
  assert (Hx : Rabs x <= q).
  { rewrite <- (sqrt_Rsqr_abs x). apply sqrt_le_1_alt. unfold Rsqr, S. nra. }
  assert (Hy : Rabs y <= q).
  { rewrite <- (sqrt_Rsqr_abs y). apply sqrt_le_1_alt. unfold Rsqr, S. nra. }
  destruct (component_accurate rnd toArray u eta huge u' eta' huge' x q w l)
    as (p0 & o0 & Ep0 & Eo0 & B0); try done; try lra.
  destruct (component_accurate rnd toArray u eta huge u' eta' huge' y q w l)
    as (p1 & o1 & Ep1 & Eo1 & B1); try done; try lra.
  exists (vec2.mk o0 o1). split.
  - unfold rounded.normalize. simpl.
    rewrite Exx. simpl. rewrite Eyy. simpl. rewrite Elen. simpl.
    assert (Hpos : 0 < len).
    { assert (u * S <= 1 / 100 * S) by (apply Rmult_le_compat_r; lra). lra. }
    unfold Rgtb. rewrite Rltb_lt by done.
    rewrite Eroot. simpl. rewrite El. simpl.
    rewrite Ep0. simpl. rewrite Eo0. simpl.
    rewrite Ep1. simpl. by rewrite Eo1.
  - simpl. split; [done|]. split; [done|].
    apply (near_unit_length (x * w) (y * w)); try done.
    + transitivity (S * (w * w)); [unfold S; ring|].
      rewrite <- Hqq. transitivity ((q * w) * (q * w)); [ring|].
      rewrite Hqw. ring.
    + unfold E. lra.
Qed.

(** ** The front direction *)

Lemma rounded_performAll_None (rnd toArray : R → option R)
    (rel : rounded.release) (os : list GameObject.operation) :
  fold_left (λ acc o, g ← acc; rounded.perform rnd toArray rel g o) os None
  = None.
Proof. by induction os. Qed.

Lemma rounded_performAll_cons (rnd toArray : R → option R)
    (rel : rounded.release) (g : GameObject.t) (o : GameObject.operation)
    (os : list GameObject.operation) :
  rounded.performAll rnd toArray rel g (o :: os)
  = g' ← rounded.perform rnd toArray rel g o;
    rounded.performAll rnd toArray rel g' os.
Proof.
  unfold rounded.performAll. simpl.
  destruct (rounded.perform rnd toArray rel g o); [done|].
  apply rounded_performAll_None.
Qed.

(** The operations other than [setCurrentFrontDir] and the writes to the
    array keep the front direction, whatever the rounding is. *)
Lemma rounded_perform_frontDir (rnd toArray : R → option R)
    (rel : rounded.release) (g : GameObject.t) (o : GameObject.operation) :
  match o with
  | GameObject.op_setCurrentFrontDir _ | GameObject.op_writeFrontDir _ _ =>
      True
  | _ =>
      ∃ g' : GameObject.t,
        rounded.perform rnd toArray rel g o = Some g' ∧
        GameObject.getCurrentFrontDir g' = GameObject.getCurrentFrontDir g
  end.
Proof. destruct o; try done; by eexists. Qed.

Lemma rounded_performAll_near_unit (rnd toArray : R → option R)
    (u eta huge u' eta' huge' lo hi : R) (rel : rounded.release)
    (os : list GameObject.operation) (g : GameObject.t) :
  rounded.accurate rnd u eta huge →
  rounded.accurate toArray u' eta' huge' →
  rounded.safeRange u eta huge u' eta' huge' lo hi →
  Forall (λ f, lo <= vec2.x f * vec2.x f + vec2.y f * vec2.y f <= hi)
    (GameObject.frontDirArguments os) →
  GameObject.frontDirWrites os = [] →
  let tol := 4 * (16 * u + 2 * u' + eta') in
  Rabs (vec2.length (GameObject.getCurrentFrontDir g) - 1) <= tol →
  ∃ g' : GameObject.t,
    rounded.performAll rnd toArray rel g os = Some g' ∧
    Rabs (vec2.length (GameObject.getCurrentFrontDir g') - 1) <= tol.
Proof.
  intros Hr Ha Hsafe Hargs Hwrites tol. revert g Hargs Hwrites.
  induction os as [|o os IH]; intros g Hargs Hwrites Hg.
  { by exists g. }
  rewrite rounded_performAll_cons.
  pose proof (rounded_perform_frontDir rnd toArray rel g o) as Hkeep.
  destruct o; try discriminate Hwrites;
    try (destruct Hkeep as (g' & -> & Hdir); simpl;
         apply IH; [done | done | by rewrite Hdir]).
  simpl in Hargs. apply Forall_cons in Hargs as [Hf Hargs].
  destruct (normalize_accurate rnd toArray u eta huge u' eta' huge' lo hi
              rel (GameObject.mCurrentFrontDir g) f)
    as (d & Ed & _ & _ & Hd); try done.
  simpl. unfold rounded.setCurrentFrontDir. rewrite Ed. simpl.
  by apply IH.
Qed.

Lemma frontDirArguments_take (P : vec2.t → Prop)
    (os : list GameObject.operation) (n : nat) :
  Forall P (GameObject.frontDirArguments os) →
  Forall P (GameObject.frontDirArguments (take n os)).
Proof.
  unfold GameObject.frontDirArguments.
  rewrite !Forall_forall. intros Hos f Hf. apply Hos.
  apply list_elem_of_omap in Hf as (o & Ho & Hof).
  apply list_elem_of_omap. exists o. split; [|done].
  apply elem_of_take in Ho as (i & Hi & _).
  by eapply list_elem_of_lookup_2.
Qed.

Lemma frontDirWrites_take (os : list GameObject.operation) (n : nat) :
  GameObject.frontDirWrites os = [] →
  GameObject.frontDirWrites (take n os) = [].
Proof.
  revert n. induction os as [|o os IH]; intros [|n] Hos; try done.
  destruct o; try discriminate Hos; simpl; by apply IH.
Qed.

(** C9, as the code and the arithmetic have it.  The front direction of
    a new game object is (0, 1).  For a rounding of relative error [u]
    (absolute error [eta] near zero) and arrays that hold a number to
    within [u'] and [eta'], [setCurrentFrontDir(f)] stores, for [f] of a
    squared length in the safe range from [lo] to [hi], a vector whose
    components are within [E = 16 u + 2 u' + eta'] of those of [f]
    divided by its length.  After any sequence of operations that passes
    only such vectors to [setCurrentFrontDir] and does not write to the
    array that [getCurrentFrontDir()] returns, and after any part of it,
    the length of the front direction is within [4 E] of 1, with either
    release of gl-matrix. *)
Theorem getCurrentFrontDir_near_unit (rnd toArray : R → option R)
    (u eta huge u' eta' huge' lo hi : R) (rel : rounded.release)
    (renderable : Renderable.t) (os : list GameObject.operation) :
  rounded.accurate rnd u eta huge →
  rounded.accurate toArray u' eta' huge' →
  rounded.safeRange u eta huge u' eta' huge' lo hi →
  Forall (λ f, lo <= vec2.x f * vec2.x f + vec2.y f * vec2.y f <= hi)
    (GameObject.frontDirArguments os) →
  GameObject.frontDirWrites os = [] →
  let E := 16 * u + 2 * u' + eta' in
  GameObject.getCurrentFrontDir (GameObject.new renderable) = vec2.mk 0 1 ∧
  (∀ (g : GameObject.t) (f : vec2.t),
     lo <= vec2.x f * vec2.x f + vec2.y f * vec2.y f <= hi →
     ∃ g' : GameObject.t,
       rounded.setCurrentFrontDir rnd toArray rel g f = Some g' ∧
       Rabs (vec2.x (GameObject.getCurrentFrontDir g')
             - vec2.x f * (1 / vec2.length f)) <= E ∧
       Rabs (vec2.y (GameObject.getCurrentFrontDir g')
             - vec2.y f * (1 / vec2.length f)) <= E) ∧
  ∀ n : nat,
    ∃ g : GameObject.t,
      rounded.performAll rnd toArray rel (GameObject.new renderable)
        (take n os) = Some g ∧
      Rabs (vec2.length (GameObject.getCurrentFrontDir g) - 1) <= 4 * E.
Proof.
  intros Hr Ha Hsafe Hargs Hwrites E. split; [reflexivity|]. split.
  - intros g f Hf.
    destruct (normalize_accurate rnd toArray u eta huge u' eta' huge' lo hi
                rel (GameObject.mCurrentFrontDir g) f)
      as (d & Ed & Hx & Hy & _); try done.
    eexists. unfold rounded.setCurrentFrontDir. rewrite Ed. simpl.
    split; [reflexivity|]. by split.
  - intros n.
    apply (rounded_performAll_near_unit rnd toArray u eta huge u' eta' huge'
             lo hi); try done.
    + by apply frontDirArguments_take.
    + by apply frontDirWrites_take.
    + unfold vec2.length. simpl.
      replace (0 * 0 + 1 * 1) with 1 by ring. rewrite sqrt_1.
      replace (1 - 1) with 0 by ring. rewrite Rabs_R0.
      destruct Hsafe as (Hu & _ & Hu' & Heta' & _). lra.
Qed.

Lemma roundsUp_accurate (eta huge : R) :
  0 <= eta → rounded.accurate Scenario.roundsUp rounded.u64 eta huge.
Proof.
  intros Heta t _. eexists. split; [reflexivity|].
  unfold rounded.u64.
  replace (t + t / 2 ^ 53 - t) with (/ 2 ^ 53 * t) by lra.
  rewrite Rabs_mult, (Rabs_pos_eq (/ 2 ^ 53)) by lra. lra.
Qed.

Lemma roundsUp32_accurate (eta huge : R) :
  0 <= eta → rounded.accurate Scenario.roundsUp32 rounded.u32 eta huge.
Proof.
  intros Heta t _. eexists. split; [reflexivity|].
  unfold rounded.u32.
  replace (t + t / 2 ^ 24 - t) with (/ 2 ^ 24 * t) by lra.
  rewrite Rabs_mult, (Rabs_pos_eq (/ 2 ^ 24)) by lra. lra.
Qed.

(** The squared lengths from 2^-1000 to 2^1000 are a safe range for
    doubles and arrays of single precision. *)
Lemma binary64_safeRange :
  rounded.safeRange rounded.u64 rounded.eta64 rounded.huge64
    rounded.u32 rounded.eta32 rounded.huge32 (/ 2 ^ 1000) (2 ^ 1000).
Proof.
  unfold rounded.safeRange, rounded.u64, rounded.eta64, rounded.huge64,
    rounded.u32, rounded.eta32, rounded.huge32.
  repeat split; lra.
Qed.

Lemma exact_accurate (u eta huge : R) :
  0 <= u → 0 <= eta → rounded.accurate Some u eta huge.
Proof.
  intros Hu Heta t _. exists t. split; [done|].
  replace (t - t) with 0 by ring. rewrite Rabs_R0.
  pose proof (Rabs_pos t). nra.
Qed.

Lemma getCurrentFrontDir_near_unit_witness :
  ∃ g : GameObject.t,
    rounded.performAll Scenario.roundsUp Scenario.roundsUp32
      rounded.gl_matrix_2 (GameObject.new Scenario.sprite) Scenario.turns
    = Some g ∧
    Rabs (vec2.length (GameObject.getCurrentFrontDir g) - 1)
    <= 4 * (16 * rounded.u64 + 2 * rounded.u32 + rounded.eta32).
Proof.
  destruct (getCurrentFrontDir_near_unit Scenario.roundsUp
              Scenario.roundsUp32 rounded.u64 rounded.eta64 rounded.huge64
              rounded.u32 rounded.eta32 rounded.huge32
              (/ 2 ^ 1000) (2 ^ 1000) rounded.gl_matrix_2
              Scenario.sprite Scenario.turns)
    as (_ & _ & Hunit).
  - apply roundsUp_accurate. unfold rounded.eta64. lra.
  - apply roundsUp32_accurate. unfold rounded.eta32. lra.
  - exact binary64_safeRange.
  - cbn. repeat (apply Forall_cons; split; [simpl; lra|]).
    by apply Forall_nil.
  - reflexivity.
  - exact (Hunit 4%nat).
Defined.

(** The tolerance of the front direction for doubles and arrays of
    single precision is below 5e-7. *)
Lemma binary64_tolerance :
  4 * (16 * rounded.u64 + 2 * rounded.u32 + rounded.eta32) <= 5 / 10000000.
Proof. unfold rounded.u64, rounded.u32, rounded.eta32. lra. Qed.

(** Below the safe range the squared length underflows to zero:
    [vec2.normalize] takes (2^-600, 0) for the zero vector, so release 2
    leaves the front direction as it was and release 3 stores (0, 0). *)
Example normalize_underflow (d : binary64.vec2) :
  binary64.setCurrentFrontDir rounded.gl_matrix_2 d Scenario64.dwarf = d ∧
  binary64.setCurrentFrontDir rounded.gl_matrix_3 d Scenario64.dwarf
  = binary64.mk PrimFloat.zero PrimFloat.zero.
Proof. split; reflexivity. Qed.

(** C9, as it is stated, fails in two ways.  [getCurrentFrontDir()]
    returns the array of the game object itself, so a client that writes
    to it, here [getCurrentFrontDir()[0] = 2], leaves the front direction
    (2, 1), which is not of length 1, although no zero vector was passed
    to [setCurrentFrontDir].  And on the doubles of the machine the
    squared length of (2^600, 2^600) overflows to infinity, its inverse
    root is 0, and [setCurrentFrontDir] stores (0, 0), of length 0, with
    either release of gl-matrix. *)
Lemma getCurrentFrontDir_not_unit :
  (let os := Scenario.scribbles in
   let g := GameObject.performAll (GameObject.new Scenario.sprite) os in
   Forall (λ f, f ≠ vec2.mk 0 0) (GameObject.frontDirArguments os) ∧
   (∀ rel : rounded.release,
      rounded.performAll Some Some rel (GameObject.new Scenario.sprite) os
      = Some g) ∧
   GameObject.getCurrentFrontDir g = vec2.mk 2 1 ∧
   vec2.length (GameObject.getCurrentFrontDir g) ≠ 1) ∧
  (∀ (rel : rounded.release) (d : binary64.vec2),
     let stored := binary64.setCurrentFrontDir rel d Scenario64.giant in
     Scenario64.giant ≠ binary64.mk PrimFloat.zero PrimFloat.zero ∧
     stored = binary64.mk PrimFloat.zero PrimFloat.zero ∧
     binary64.length stored = PrimFloat.zero).
Proof.
  split.
  - intros os g. split; [constructor|]. split; [done|]. split; [done|].
    unfold vec2.length. cbn. intros Hlen.
    assert (H5 : sqrt (2 * 2 + 1 * 1) * sqrt (2 * 2 + 1 * 1)
                 = 2 * 2 + 1 * 1)
      by (apply sqrt_sqrt; lra).
    rewrite Hlen in H5. lra.
  - intros rel d stored. split; [discriminate|].
    subst stored. by destruct rel.
Qed.

(** * More of camera.js *)

(** ** The constructor and the viewport *)

(** The camera and the store that the constructor returns. *)
Lemma new_eq (wcCenter : vec2.t) (wcWidth : R) (va : loc)
    (bound : option R) (h : heap) (x y w hh : R) :
  h !! va = Some [x; y; w; hh] →
  let b := default 0 bound in
  Camera.new wcCenter wcWidth va bound h
  = Some (Camera.mk (CameraState.new wcCenter wcWidth) None (length h) b
            (S (length h)) 10 mat4.create (S (S (length h)))
            PerRenderCache.new,
          h ++ [[x + b; y + b; w - 2 * b; hh - 2 * b]; [x; y; w; hh];
                [0.8; 0.8; 0.8; 1]]).
Proof.
  intros Hva b.
  assert (Lva : (va < length h)%nat) by (by eapply lookup_lt_Some).
  unfold Camera.new, alloc. fold b.
  rewrite length_app. simpl. rewrite Nat.add_1_r.
  rewrite <- (app_assoc h [[]] [[]]). simpl.
  rewrite (setViewportArrays_eq (h ++ [[]; []]) (length h) (S (length h))
             va b x y w hh [] [] []); try lia.
  - simpl. rewrite !length_insert, length_app. simpl.
    replace (length h + 2)%nat with (S (S (length h))) by lia.
    do 2 f_equal.
    rewrite (insert_app_r_alt h _ (length h)) by lia.
    rewrite Nat.sub_diag. simpl.
    rewrite (insert_app_r_alt h _ (S (length h))) by lia.
    replace (S (length h) - length h)%nat with 1%nat by lia. simpl.
    by rewrite <- app_assoc.
  - by rewrite lookup_app_l.
  - rewrite lookup_app_r by lia. by rewrite Nat.sub_diag.
  - rewrite lookup_app_r by lia.
    by replace (S (length h) - length h)%nat with 1%nat by lia.
Qed.

(** X1: the constructor allocates three arrays of its own (pixel
    viewport, scissor rectangle, background colour), distinct from each
    other and from every array the store held, which it leaves as they
    were; the pixel viewport is the rectangle inset by the bound (0 when
    the bound is left out), the scissor rectangle is the rectangle as
    given, and the colour is light grey. *)
Theorem constructor_allocates (wcCenter : vec2.t) (wcWidth : R) (va : loc)
    (bound : option R) (h : heap) (x y w hh : R) :
  h !! va = Some [x; y; w; hh] →
  let b := default 0 bound in
  ∃ (c : Camera.t) (h' : heap),
    Camera.new wcCenter wcWidth va bound h = Some (c, h') ∧
    length h' = (length h + 3)%nat ∧
    (∀ l : loc, (l < length h)%nat →
       h' !! l = h !! l ∧ l ≠ Camera.mViewport c
       ∧ l ≠ Camera.mScissorBound c ∧ l ≠ Camera.mBGColor c) ∧
    Camera.mViewport c ≠ Camera.mScissorBound c ∧
    Camera.mViewport c ≠ Camera.mBGColor c ∧
    Camera.mScissorBound c ≠ Camera.mBGColor c ∧
    h' !! Camera.mViewport c
    = Some [x + b; y + b; w - 2 * b; hh - 2 * b] ∧
    h' !! Camera.mScissorBound c = Some [x; y; w; hh] ∧
    h' !! Camera.getBackgroundColor c = Some [0.8; 0.8; 0.8; 1] ∧
    Camera.mViewportBound c = b ∧
    Camera.mCameraShake c = None ∧
    Camera.getCameraMatrix c = mat4.create.
Proof.
  intros Hva b. eexists _, _.
  split; [exact (new_eq wcCenter wcWidth va bound h x y w hh Hva)|].
  fold b. simpl.
  split; [rewrite length_app; simpl; lia|].
  split.
  { intros l Hl. split; [by apply lookup_app_l | lia]. }
  split; [lia|]. split; [lia|]. split; [lia|].
  split; [rewrite lookup_app_r by lia; by rewrite Nat.sub_diag|].
  split.
  { rewrite lookup_app_r by lia.
    by replace (S (length h) - length h)%nat with 1%nat by lia. }
  split; [|done].
  unfold Camera.getBackgroundColor. simpl.
  rewrite lookup_app_r by lia.
  by replace (S (S (length h)) - length h)%nat with 2%nat by lia.
Qed.

Lemma constructor_allocates_witness :
  ∃ (c : Camera.t) (h' : heap),
    Camera.new (vec2.mk 0 0) 20 Scenario.rectangle (Some 40) Scenario.store0
    = Some (c, h') ∧
    h' !! Camera.mViewport c
    = Some [0 + 40; 0 + 40; 640 - 2 * 40; 480 - 2 * 40] ∧
    h' !! Scenario.rectangle = Some [0; 0; 640; 480].
Proof.
  destruct (constructor_allocates (vec2.mk 0 0) 20 Scenario.rectangle
              (Some 40) Scenario.store0 0 0 640 480)
    as (c & h' & Hnew & _ & Hold & _ & _ & _ & Hvp & _); [reflexivity|].
  exists c, h'. split; [exact Hnew|]. split; [exact Hvp|].
  destruct (Hold Scenario.rectangle) as [-> _]; [|reflexivity].
  unfold Scenario.rectangle, Scenario.store0. simpl. lia.
Defined.

Lemma getWCHeight_same_viewport (c : Camera.t) (h h' : heap) :
  h' !! Camera.mViewport c = h !! Camera.mViewport c →
  Camera.getWCHeight c h' = Camera.getWCHeight c h.
Proof. intros H. unfold Camera.getWCHeight, load. by rewrite H. Qed.

(** X2: the constructor copies the rectangle and keeps no reference to the
    array of the caller: whatever the caller writes to that array after
    the construction, the pixel viewport, the height of the world window
    and what [getViewport()] returns stay as they were. *)
Theorem constructor_copies_rectangle (wcCenter : vec2.t) (wcWidth : R)
    (va : loc) (bound : option R) (h h' h'' : heap) (c : Camera.t)
    (x y w hh : R) (i : nat) (v : R) :
  h !! va = Some [x; y; w; hh] →
  Camera.new wcCenter wcWidth va bound h = Some (c, h') →
  store h' va i v = Some h'' →
  let b := default 0 bound in
  h'' !! Camera.mViewport c = Some [x + b; y + b; w - 2 * b; hh - 2 * b] ∧
  Camera.getWCHeight c h'' = Camera.getWCHeight c h' ∧
  ∃ (out : loc) (h3 : heap),
    Camera.getViewport c h'' = Some (out, h3) ∧
    h3 !! out = Some [x; y; w; hh].
Proof.
  intros Hva Hnew Hstore b.
  assert (Lva : (va < length h)%nat) by (by eapply lookup_lt_Some).
  rewrite (new_eq wcCenter wcWidth va bound h x y w hh Hva) in Hnew.
  fold b in Hnew. injection Hnew as <- <-.
  assert (Hvp : h'' !! length h
                = Some [x + b; y + b; w - 2 * b; hh - 2 * b]).
  { rewrite (store_other _ _ _ _ _ _ Hstore) by lia.
    rewrite lookup_app_r by lia. by rewrite Nat.sub_diag. }
  assert (Hsb : h'' !! S (length h) = Some [x; y; w; hh]).
  { rewrite (store_other _ _ _ _ _ _ Hstore) by lia.
    rewrite lookup_app_r by lia.
    by replace (S (length h) - length h)%nat with 1%nat by lia. }
  split; [exact Hvp|]. split.
  - apply getWCHeight_same_viewport. simpl.
    apply (store_other _ _ _ _ _ _ Hstore). lia.
  - eexists _, _. split.
    + by apply getViewport_eq with (rest := []).
    + by apply list_lookup_middle.
Qed.

Lemma constructor_copies_rectangle_witness :
  ∃ h'' : heap,
    store Scenario.store Scenario.rectangle 2 1 = Some h'' ∧
    h'' !! Scenario.rectangle = Some [0; 0; 1; 480] ∧
    h'' !! Camera.mViewport Scenario.camera
    = Some [0 + 0; 0 + 0; 640 - 2 * 0; 480 - 2 * 0].
Proof.
  eexists. split; [reflexivity|]. split; [reflexivity|].
  apply (constructor_copies_rectangle (vec2.mk 0 0) 20 Scenario.rectangle
           None Scenario.store0 Scenario.store _ Scenario.camera
           0 0 640 480 2 1); reflexivity.
Defined.

(** X3: [setViewport] writes to the two arrays of the camera and to
    nothing else: it allocates no array, and every other array of the
    store, the rectangle of the caller and the background colour among
    them, is as it was. *)
Theorem setViewport_writes_own_arrays (c : Camera.t) (h h1 : heap)
    (va : loc) (x y w hh : R) (bound : option R) :
  Camera.wellFormed c h → Camera.foreign c va →
  h !! va = Some [x; y; w; hh] →
  Camera.setViewport c va bound h = Some h1 →
  length h1 = length h ∧
  h1 !! va = Some [x; y; w; hh] ∧
  ∀ l : loc,
    l ≠ Camera.mViewport c → l ≠ Camera.mScissorBound c →
    h1 !! l = h !! l.
Proof.
  intros Hwf Hf Hva.
  rewrite (setViewport_eq c h va x y w hh bound Hwf Hf Hva).
  intros [= <-]. destruct Hf as [Hf1 Hf2].
  split; [by rewrite !length_insert|].
  split; [by rewrite !list_lookup_insert_ne by done|].
  intros l Hl1 Hl2. by rewrite !list_lookup_insert_ne by done.
Qed.

Lemma setViewport_writes_own_arrays_witness :
  ∃ h1 : heap,
    Camera.setViewport Scenario.camera Scenario.rectangle (Some 40)
      Scenario.store = Some h1 ∧
    length h1 = 4%nat ∧
    h1 !! Camera.getBackgroundColor Scenario.camera
    = Some [0.8; 0.8; 0.8; 1].
Proof.
  exists Scenario.borderStore. split; [reflexivity|].
  destruct (setViewport_writes_own_arrays Scenario.camera Scenario.store
              Scenario.borderStore Scenario.rectangle 0 0 640 480
              (Some 40))
    as (Hlen & _ & Hother).
  - split; [simpl; lia|]. eexists _, _. repeat split; reflexivity.
  - split; simpl; unfold Scenario.rectangle; lia.
  - reflexivity.
  - reflexivity.
  - split; [exact Hlen|]. rewrite Hother; [reflexivity | |]; simpl; lia.
Defined.

(** X4: of two calls of [setViewport] the second one stands: the store is
    the one that the second call alone would leave.  A bound given to the
    first call is not remembered: when the second call leaves the bound
    out, the inset is the bound of the constructor. *)
Theorem setViewport_last_stands (c : Camera.t) (h : heap) (va1 va2 : loc)
    (x1 y1 w1 hh1 x2 y2 w2 hh2 : R) (bound1 bound2 : option R) :
  Camera.wellFormed c h → Camera.foreign c va1 → Camera.foreign c va2 →
  h !! va1 = Some [x1; y1; w1; hh1] →
  h !! va2 = Some [x2; y2; w2; hh2] →
  ∃ h1 h2 : heap,
    Camera.setViewport c va1 bound1 h = Some h1 ∧
    Camera.setViewport c va2 bound2 h1 = Some h2 ∧
    Camera.setViewport c va2 bound2 h = Some h2 ∧
    (bound2 = None →
     let b := Camera.mViewportBound c in
     h2 !! Camera.mViewport c
     = Some [x2 + b; y2 + b; w2 - 2 * b; hh2 - 2 * b]).
Proof.
  intros Hwf Hf1 Hf2 Hva1 Hva2.
  pose proof (setViewport_eq c h va1 _ _ _ _ bound1 Hwf Hf1 Hva1) as H1.
  pose proof (setViewport_eq c h va2 _ _ _ _ bound2 Hwf Hf2 Hva2) as H2.
  simpl in H1, H2.
  assert (Hwf1 := setViewport_wellFormed c h _ va1 _ _ _ _ bound1 Hwf Hf1
                    Hva1 H1).
  destruct Hwf as (Hne & _). destruct Hf2 as [Hf21 Hf22].
  eexists _, _. split; [exact H1|]. split; [|split; [exact H2|]].
  - rewrite (setViewport_eq c _ va2 x2 y2 w2 hh2 bound2 Hwf1);
      [|done | by rewrite !list_lookup_insert_ne by done].
    simpl. f_equal.
    rewrite (list_insert_insert_ne _ (Camera.mViewport c)
               (Camera.mScissorBound c)) by done.
    by rewrite !list_insert_insert_eq.
  - intros -> b. simpl.
    rewrite list_lookup_insert_ne by done.
    apply list_lookup_insert_eq.
    destruct Hwf1 as (_ & vp & _ & Hvp & _).
    rewrite <- (length_insert h (Camera.mViewport c)
                  [x1 + default (Camera.mViewportBound c) bound1;
                   y1 + default (Camera.mViewportBound c) bound1;
                   w1 - 2 * default (Camera.mViewportBound c) bound1;
                   hh1 - 2 * default (Camera.mViewportBound c) bound1]).
    rewrite <- (length_insert _ (Camera.mScissorBound c) [x1; y1; w1; hh1]).
    by eapply lookup_lt_Some.
Qed.

Lemma setViewport_last_stands_witness :
  ∃ h1 h2 : heap,
    Camera.setViewport Scenario.borderCamera Scenario.rectangle (Some 7)
      Scenario.borderStore = Some h1 ∧
    Camera.setViewport Scenario.borderCamera Scenario.rectangle None h1
    = Some h2 ∧
    h2 !! Camera.mViewport Scenario.borderCamera
    = Some [0 + 40; 0 + 40; 640 - 2 * 40; 480 - 2 * 40].
Proof.
  destruct (setViewport_last_stands Scenario.borderCamera
              Scenario.borderStore Scenario.rectangle Scenario.rectangle
              0 0 640 480 0 0 640 480 (Some 7) None)
    as (h1 & h2 & Hfirst & Hsecond & _ & Hbound).
  - split; [simpl; lia|]. eexists _, _. repeat split; reflexivity.
  - split; simpl; unfold Scenario.rectangle; lia.
  - split; simpl; unfold Scenario.rectangle; lia.
  - reflexivity.
  - reflexivity.
  - exists h1, h2. split; [exact Hfirst|]. split; [exact Hsecond|].
    exact (Hbound eq_refl).
Defined.

(** ** The frame: matrix, cache and graphics surface *)






(** [setViewAndCameraMatrix] reads neither the matrix nor the cache the
    camera holds. *)
Lemma setViewAndCameraMatrix_stale (c : Camera.t) (h : heap)
    (log : list gl.call) (m : mat4.t) (cache : PerRenderCache.t) :
  Camera.setViewAndCameraMatrix
    (Camera.mk (Camera.mCameraState c) (Camera.mCameraShake c)
       (Camera.mViewport c) (Camera.mViewportBound c)
       (Camera.mScissorBound c) (Camera.kCameraZ c) m (Camera.mBGColor c)
       cache) h log
  = Camera.setViewAndCameraMatrix c h log.
Proof. by destruct c. Qed.

(** X7: [setViewAndCameraMatrix] builds the matrix and the cache anew:
    the camera it returns does not depend on the matrix and on the cache
    held before, and a second call on the same store returns the same
    camera again (nothing accumulates), while the six calls on the
    graphics surface are made a second time. *)
Theorem setViewAndCameraMatrix_again (c : Camera.t) (h : heap)
    (log : list gl.call) (vw vh : R) :
  Camera.valid c h vw vh →
  ∃ (c' : Camera.t) (log' : list gl.call),
    Camera.setViewAndCameraMatrix c h log = Some (c', log') ∧
    (∀ (m : mat4.t) (cache : PerRenderCache.t),
       Camera.setViewAndCameraMatrix
         (Camera.mk (Camera.mCameraState c) (Camera.mCameraShake c)
            (Camera.mViewport c) (Camera.mViewportBound c)
            (Camera.mScissorBound c) (Camera.kCameraZ c) m
            (Camera.mBGColor c) cache) h log
       = Some (c', log')) ∧
    Camera.setViewAndCameraMatrix c' h log'
    = Some (c', log' ++ drop (length log) log').
Proof.
  intros Hvalid.
  pose proof Hvalid as (Hw & Hk & Hvw & Hvh & (vx & vy & Hv)
                        & (s0 & s1 & s2 & s3 & Hs)
                        & (c0 & c1 & c2 & c3 & Hc)).
  assert (Hrun : ∀ l : list gl.call,
            ∃ c' : Camera.t,
              Camera.setViewAndCameraMatrix c h l
              = Some (c', l ++ [gl.viewport vx vy vw vh;
                                gl.scissor s0 s1 s2 s3;
                                gl.clearColor c0 c1 c2 c3;
                                gl.enable gl.SCISSOR_TEST;
                                gl.clear gl.COLOR_BUFFER_BIT;
                                gl.disable gl.SCISSOR_TEST]) ∧
              ∀ l' : list gl.call,
                fst <$> Camera.setViewAndCameraMatrix c h l'
                = Some c').
  { intros l.
    destruct (setCameraMatrix_eq c h vx vy vw vh [] Hv) as [cache Hm];
      try lra.
    eexists. unfold Camera.setViewAndCameraMatrix.
    split.
    - rewrite (setView_eq c h l _ _ _ _ _ _ _ _ _ _ _ _ [] [] [] Hv Hs Hc).
      simpl. rewrite Hm. reflexivity.
    - intros l'.
      rewrite (setView_eq c h l' _ _ _ _ _ _ _ _ _ _ _ _ [] [] [] Hv Hs Hc).
      simpl. by rewrite Hm. }
  destruct (Hrun log) as (c' & Hfirst & Hsame).
  eexists _, _. split; [exact Hfirst|]. split.
  - intros m cache. by rewrite setViewAndCameraMatrix_stale.
  - rewrite drop_app_length.
    assert (Hc' : c' = Camera.mk (Camera.mCameraState c)
                         (Camera.mCameraShake c) (Camera.mViewport c)
                         (Camera.mViewportBound c) (Camera.mScissorBound c)
                         (Camera.kCameraZ c) (Camera.mCameraMatrix c')
                         (Camera.mBGColor c) (Camera.mRenderCache c')).
    { destruct (setViewAndCameraMatrix_eq c h log vw vh Hvalid)
        as (cache & log0 & Heq).
      rewrite Hfirst in Heq. by injection Heq as -> _. }
    rewrite Hc' at 1. rewrite setViewAndCameraMatrix_stale.
    destruct (Hrun (log ++ [gl.viewport vx vy vw vh;
                            gl.scissor s0 s1 s2 s3;
                            gl.clearColor c0 c1 c2 c3;
                            gl.enable gl.SCISSOR_TEST;
                            gl.clear gl.COLOR_BUFFER_BIT;
                            gl.disable gl.SCISSOR_TEST]))
      as (c2' & Hsecond & _).
    rewrite Hsecond. do 2 f_equal.
    specialize (Hsame (log ++ [gl.viewport vx vy vw vh;
                               gl.scissor s0 s1 s2 s3;
                               gl.clearColor c0 c1 c2 c3;
                               gl.enable gl.SCISSOR_TEST;
                               gl.clear gl.COLOR_BUFFER_BIT;
                               gl.disable gl.SCISSOR_TEST])).
    rewrite Hsecond in Hsame. by injection Hsame.
Qed.

Lemma setViewAndCameraMatrix_again_witness :
  ∃ (c' : Camera.t) (log' : list gl.call),
    Camera.setViewAndCameraMatrix Scenario.shakenCamera Scenario.store []
    = Some (c', log') ∧
    Camera.setViewAndCameraMatrix c' Scenario.store log'
    = Some (c', log' ++ log').
Proof.
  destruct (setViewAndCameraMatrix_again Scenario.shakenCamera
              Scenario.store [] (640 - 2 * 0) (480 - 2 * 0))
    as (c' & log' & Hfirst & _ & Hsecond).
  - unfold Camera.valid. cbn.
    split; [lra|]. split; [reflexivity|]. split; [lra|]. split; [lra|].
    split; [by eexists _, _|]. split; by eexists _, _, _, _.
  - exists c', log'. split; [exact Hfirst | exact Hsecond].
Defined.



Lemma painted_app (s : surface.t) (l1 l2 : list gl.call) :
  surface.painted s (l1 ++ l2)
  = surface.painted s l1 ++ surface.painted (surface.run s l1) l2.
Proof.
  revert s. induction l1 as [|c l1 IH]; intros s; simpl; [done|].
  rewrite IH. by rewrite app_assoc.
Qed.

(** X9: whatever calls were made on the graphics surface before and
    whatever state they left, [setViewAndCameraMatrix] paints once, the
    un-inset rectangle of this camera and nothing outside it, with the
    background colour of this camera, and leaves the surface with the
    inset rectangle as pixel viewport and the scissor test off. *)
Theorem setViewAndCameraMatrix_paints (c : Camera.t) (h : heap)
    (log : list gl.call) (s0 : surface.t) (x y w hh b cr cg cb ca : R) :
  h !! Camera.mViewport c
  = Some [x + b; y + b; w - 2 * b; hh - 2 * b] →
  h !! Camera.mScissorBound c = Some [x; y; w; hh] →
  h !! Camera.mBGColor c = Some [cr; cg; cb; ca] →
  Camera.getWCWidth c ≠ 0 → w - 2 * b ≠ 0 → hh - 2 * b ≠ 0 →
  Camera.kCameraZ c ≠ 0 →
  ∃ (c' : Camera.t) (log' : list gl.call),
    Camera.setViewAndCameraMatrix c h log = Some (c', log') ∧
    surface.painted s0 log'
    = surface.painted s0 log ++ [(Some [x; y; w; hh], [cr; cg; cb; ca])] ∧
    surface.run s0 log'
    = surface.mk [x + b; y + b; w - 2 * b; hh - 2 * b] [x; y; w; hh]
        [cr; cg; cb; ca] false.
Proof.
  intros Hv Hs Hc Hw Hvw Hvh Hk.
  destruct (setCameraMatrix_eq c h _ _ _ _ [] Hv Hw Hvw Hvh Hk)
    as [cache Hm].
  eexists _, _. split.
  - unfold Camera.setViewAndCameraMatrix.
    rewrite (setView_eq c h log _ _ _ _ _ _ _ _ _ _ _ _ [] [] [] Hv Hs Hc).
    simpl. rewrite Hm. reflexivity.
  - split.
    + rewrite painted_app. f_equal.
    + unfold surface.run. rewrite fold_left_app. reflexivity.
Qed.

(** Two cameras on one surface: the second is drawn after the first and
    paints its own rectangle. *)
Lemma setViewAndCameraMatrix_paints_witness :
  ∃ (c1 c2 : Camera.t) (log1 log2 : list gl.call),
    Camera.setViewAndCameraMatrix Scenario.camera Scenario.store []
    = Some (c1, log1) ∧
    Camera.setViewAndCameraMatrix Scenario.borderCamera
      Scenario.borderStore log1 = Some (c2, log2) ∧
    surface.painted (surface.mk [] [] [] false) log2
    = [(Some [0; 0; 640; 480], [0.8; 0.8; 0.8; 1]);
       (Some [0; 0; 640; 480], [0.8; 0.8; 0.8; 1])].
Proof.
  destruct (setViewAndCameraMatrix_paints Scenario.camera Scenario.store []
              (surface.mk [] [] [] false) 0 0 640 480 0 0.8 0.8 0.8 1)
    as (c1 & log1 & Hrun1 & Hpaint1 & _);
    [reflexivity | reflexivity | reflexivity | cbn; lra .. |].
  destruct (setViewAndCameraMatrix_paints Scenario.borderCamera
              Scenario.borderStore log1 (surface.mk [] [] [] false)
              0 0 640 480 40 0.8 0.8 0.8 1)
    as (c2 & log2 & Hrun2 & Hpaint2 & _);
    [reflexivity | reflexivity | reflexivity | cbn; lra .. |].
  exists c1, c2, log1, log2. split; [exact Hrun1|]. split; [exact Hrun2|].
  rewrite Hpaint2, Hpaint1. reflexivity.
Defined.



(** * More of game_object.js *)

(** ** pixelTouches *)

(** X11: [GameObject.pixelTouches] either answers false without a call
    on the renderables, or, both renderables having the method
    [pixelTouches], calls [setColorArray] on its own renderable, then on
    the other, then the per-pixel test, and answers what that test
    answers: the test never runs before both colour arrays are loaded,
    and the answer is never true without it. *)
Theorem pixelTouches_calls
    (texelsTouch : Renderable.t → Renderable.t → vec2.t → bool)
    (this otherObj : GameObject.t) (wcTouchPos : vec2.t) :
  let myRen := GameObject.getRenderable this in
  let otherRen := GameObject.getRenderable otherObj in
  GameObject.pixelTouches texelsTouch this otherObj wcTouchPos = (false, [])
  ∨ (Renderable.hasPixelTouches myRen = true
     ∧ Renderable.hasPixelTouches otherRen = true
     ∧ GameObject.pixelTouches texelsTouch this otherObj wcTouchPos
       = (texelsTouch myRen otherRen wcTouchPos,
          [GameObject.Renderable_setColorArray myRen;
           GameObject.Renderable_setColorArray otherRen;
           GameObject.Renderable_pixelTouches myRen otherRen wcTouchPos])).
Proof.
  intros myRen otherRen. unfold GameObject.pixelTouches.
  fold myRen otherRen.
  destruct (Renderable.hasPixelTouches myRen); [|by left].
  destruct (Renderable.hasPixelTouches otherRen); [|by left]. simpl.
  repeat match goal with
         | |- context [if ?b then _ else _] => destruct b
         end; auto.
Qed.

Lemma intersectsBound_sym (a b : BoundingBox.t) :
  BoundingBox.intersectsBound a b = BoundingBox.intersectsBound b a.
Proof.
  unfold BoundingBox.intersectsBound, Rgtb.
  by destruct (Rltb (BoundingBox.minX a) (BoundingBox.maxX b)),
    (Rltb (BoundingBox.minX b) (BoundingBox.maxX a)),
    (Rltb (BoundingBox.minY a) (BoundingBox.maxY b)),
    (Rltb (BoundingBox.minY b) (BoundingBox.maxY a)).
Qed.

Lemma length_sub_sym (a b : vec2.t) :
  vec2.length (vec2.sub a b) = vec2.length (vec2.sub b a).
Proof. unfold vec2.length, vec2.sub. simpl. f_equal. ring. Qed.

(** X12: whether the per-pixel test runs does not depend on which of the
    two game objects is asked: [a.pixelTouches(b, p)] makes no call on the
    renderables exactly when [b.pixelTouches(a, q)] makes none. *)
Theorem pixelTouches_symmetric
    (texelsTouch texelsTouch' : Renderable.t → Renderable.t → vec2.t → bool)
    (a b : GameObject.t) (p q : vec2.t) :
  snd (GameObject.pixelTouches texelsTouch a b p) = []
  ↔ snd (GameObject.pixelTouches texelsTouch' b a q) = [].
Proof.
  unfold GameObject.pixelTouches.
  rewrite (intersectsBound_sym (GameObject.getBBox b)).
  rewrite (length_sub_sym
             (Transform.getPosition
                (Renderable.getXform (GameObject.getRenderable a)))).
  rewrite (andb_comm
             (Renderable.hasPixelTouches (GameObject.getRenderable a))).
  rewrite (andb_comm
             (Reqb (Transform.getRotationInRad
                      (Renderable.getXform (GameObject.getRenderable a)))
                0)).
  rewrite (Rplus_comm
             (sqrt (0.5 * vec2.x (Transform.getSize
                                    (Renderable.getXform
                                       (GameObject.getRenderable a)))
                    * 0.5 * vec2.x (Transform.getSize
                                      (Renderable.getXform
                                         (GameObject.getRenderable a)))
                    + 0.5 * vec2.y (Transform.getSize
                                      (Renderable.getXform
                                         (GameObject.getRenderable a)))
                      * 0.5 * vec2.y (Transform.getSize
                                        (Renderable.getXform
                                           (GameObject.getRenderable a)))))).
  repeat match goal with
         | |- context [if ?b then _ else _] => destruct b
         end; simpl; done.
Qed.

(** ** The state of a game object after a sequence of operations *)

Lemma performAll_snoc (g : GameObject.t) (os : list GameObject.operation)
    (o : GameObject.operation) :
  GameObject.performAll g (os ++ [o])
  = GameObject.perform (GameObject.performAll g os) o.
Proof. unfold GameObject.performAll. by rewrite fold_left_app. Qed.

Lemma odd_snoc {A} (l : list A) (x : A) :
  Nat.odd (length (l ++ [x])) = negb (Nat.odd (length l)).
Proof.
  rewrite length_app. simpl. rewrite Nat.add_1_r, Nat.odd_succ.
  by rewrite <- Nat.negb_odd.
Qed.

Lemma xorb_negb_r (a b : bool) : xorb a (negb b) = negb (xorb a b).
Proof. by destruct a, b. Qed.

Lemma performAll_visible (g : GameObject.t)
    (os : list GameObject.operation) :
  GameObject.isVisible (GameObject.performAll g os)
  = default (GameObject.isVisible g)
      (last (GameObject.visibilityArguments os)).
Proof.
  induction os as [|o os IH] using rev_ind; [done|].
  rewrite performAll_snoc. unfold GameObject.visibilityArguments in *.
  rewrite omap_app.
  destruct o; simpl; rewrite ?app_nil_r, ?last_snoc; done.
Qed.

Lemma performAll_rigidBody (g : GameObject.t)
    (os : list GameObject.operation) :
  GameObject.getRigidBody (GameObject.performAll g os)
  = default (GameObject.getRigidBody g)
      (last (GameObject.rigidBodyArguments os)).
Proof.
  induction os as [|o os IH] using rev_ind; [done|].
  rewrite performAll_snoc. unfold GameObject.rigidBodyArguments in *.
  rewrite omap_app.
  destruct o; simpl; rewrite ?app_nil_r, ?last_snoc; done.
Qed.

Lemma performAll_drawRenderable (g : GameObject.t)
    (os : list GameObject.operation) :
  GameObject.mDrawRenderable (GameObject.performAll g os)
  = xorb (GameObject.mDrawRenderable g)
      (Nat.odd (GameObject.renderableToggles os)).
Proof.
  induction os as [|o os IH] using rev_ind;
    [cbn; by rewrite xorb_false_r|].
  rewrite performAll_snoc. unfold GameObject.renderableToggles in *.
  rewrite omap_app.
  destruct o; simpl; rewrite ?app_nil_r, ?odd_snoc, ?xorb_negb_r;
    by rewrite ?IH.
Qed.

Lemma performAll_drawRigidShape (g : GameObject.t)
    (os : list GameObject.operation) :
  GameObject.mDrawRigidShape (GameObject.performAll g os)
  = xorb (GameObject.mDrawRigidShape g)
      (Nat.odd (GameObject.rigidShapeToggles os)).
Proof.
  induction os as [|o os IH] using rev_ind;
    [cbn; by rewrite xorb_false_r|].
  rewrite performAll_snoc. unfold GameObject.rigidShapeToggles in *.
  rewrite omap_app.
  destruct o; simpl; rewrite ?app_nil_r, ?odd_snoc, ?xorb_negb_r;
    by rewrite ?IH.
Qed.

(** X14: what [draw(aCamera)] does after any sequence of operations on a
    game object.  It draws nothing when the last [setVisibility] passed
    [false]; otherwise it draws the renderable when [toggleDrawRenderable]
    was called an even number of times more than needed to undo the
    initial flag (the flag is the initial one flipped once per call), and
    then the rigid body that the last [setRigidBody] passed, if that is
    not [null], under the same rule for [toggleDrawRigidShape]; the
    renderable always before the rigid body, both with the camera
    given. *)
Theorem draw_after_operations (g : GameObject.t)
    (os : list GameObject.operation) (aCamera : Camera.t) :
  GameObject.draw (GameObject.performAll g os) aCamera
  = if default (GameObject.isVisible g)
         (last (GameObject.visibilityArguments os))
    then
      (if xorb (GameObject.mDrawRenderable g)
            (Nat.odd (GameObject.renderableToggles os))
       then [GameObject.Renderable_draw
               (GameObject.getRenderable (GameObject.performAll g os))
               aCamera]
       else [])
      ++ match default (GameObject.getRigidBody g)
                 (last (GameObject.rigidBodyArguments os)) with
         | Some b =>
             if xorb (GameObject.mDrawRigidShape g)
                  (Nat.odd (GameObject.rigidShapeToggles os))
             then [GameObject.RigidShape_draw b aCamera] else []
         | None => []
         end
    else [].
Proof.
  unfold GameObject.draw.
  rewrite performAll_visible, performAll_drawRenderable,
    performAll_drawRigidShape.
  pose proof (performAll_rigidBody g os) as Hb.
  unfold GameObject.getRigidBody in Hb. by rewrite Hb.
Qed.

(** X15: [update()] after any sequence of operations updates the rigid
    body that the last [setRigidBody] passed (the initial one if there was
    no such call), once, and makes no call if that is [null]; neither the
    visibility nor the draw flags matter. *)
Theorem update_after_operations (g : GameObject.t)
    (os : list GameObject.operation) :
  GameObject.update (GameObject.performAll g os)
  = match default (GameObject.getRigidBody g)
            (last (GameObject.rigidBodyArguments os)) with
    | Some b => [GameObject.RigidShape_update b]
    | None => []
    end.
Proof.
  unfold GameObject.update.
  pose proof (performAll_rigidBody g os) as Hb.
  unfold GameObject.getRigidBody in Hb. by rewrite Hb.
Qed.

(** X16: a game object that was given a rigid body after its construction
    updates the body but does not draw it: [draw] draws the renderable
    only, until [toggleDrawRigidShape] is called, after which it draws
    the renderable and then the body. *)
Theorem new_body_updated_not_drawn (renderable : Renderable.t)
    (b : RigidShape.t) (aCamera : Camera.t) :
  let g := GameObject.setRigidBody (GameObject.new renderable) (Some b) in
  GameObject.update g = [GameObject.RigidShape_update b] ∧
  GameObject.draw g aCamera
  = [GameObject.Renderable_draw renderable aCamera] ∧
  GameObject.draw (GameObject.toggleDrawRigidShape g) aCamera
  = [GameObject.Renderable_draw renderable aCamera;
     GameObject.RigidShape_draw b aCamera] ∧
  GameObject.draw (GameObject.new renderable) aCamera
  = [GameObject.Renderable_draw renderable aCamera] ∧
  GameObject.update (GameObject.new renderable) = [].
Proof. done. Qed.

(** ** setCurrentFrontDir *)

(** X18: passing the front direction back to [setCurrentFrontDir] changes
    nothing, as long as it has length 1: the normalised vector is then the
    vector itself. *)
Theorem setCurrentFrontDir_of_get (g : GameObject.t) :
  vec2.length (GameObject.getCurrentFrontDir g) = 1 →
  GameObject.setCurrentFrontDir g (GameObject.getCurrentFrontDir g) = g.
Proof.
  intros Hlen. destruct g as [r v [x y] b dr ds].
  unfold GameObject.setCurrentFrontDir, GameObject.getCurrentFrontDir in *.
  simpl in *. f_equal.
  assert (Hf : vec2.mk x y ≠ vec2.mk 0 0).
  { intros Heq. injection Heq as -> ->. unfold vec2.length in Hlen.
    simpl in Hlen. rewrite Rmult_0_r, Rplus_0_r, sqrt_0 in Hlen. lra. }
  rewrite normalize_nonzero by done. rewrite Hlen. simpl.
  f_equal; field.
Qed.

Lemma setCurrentFrontDir_of_get_witness :
  GameObject.setCurrentFrontDir Scenario.spriteObject
    (GameObject.getCurrentFrontDir Scenario.spriteObject)
  = Scenario.spriteObject.
Proof.
  apply (setCurrentFrontDir_of_get Scenario.spriteObject).
  unfold vec2.length. cbn.
  replace (0 * 0 + 1 * 1) with 1 by ring. apply sqrt_1.
Defined.
